(** * The Mind: change detection, spatial windowing and overlay engines

    A shallow embedding of the TypeScript stores of the repository
    (activationStore, thinkingStore, timelineStore, mindStore, the
    useDatabaseSync hook and the MindSpace component) together with the
    properties claimed for them.

    Conventions of the embedding.
    - A JavaScript [number] that carries a level, a strength, a distance or a
      time is an exact rational ([Q]); equalities between computed numbers
      are stated with [==] ([Qeq]).  Rounding of IEEE doubles and the value
      NaN are outside the model, except where a source line tests for it.
    - Identifier counters and thought counts are integers ([Z]).
    - [Date.now()] is an explicit argument [now] of every action reading it.
    - A zustand store is a record; an action is a function from the record to
      the new record ([set] replaces the named fields).
    - [Map<string, _>] is a [gmap string _]; arrays are lists. *)

From Stdlib Require Import QArith Qminmax Lqa ZArith Lia Sorted.
From stdpp Require Import gmap strings list fin_maps.

(** ** JavaScript numbers *)

Module Js.

Definition Qltb (a b : Q) : bool := negb (Qle_bool b a).

(** [x || d] on numbers: [0] is falsy. *)
Definition orElse (x d : Q) : Q := if Qeq_bool x 0 then d else x.

(** [Math.pow(x, 2)] *)
Definition pow2 (x : Q) : Q := (x ^ 2)%Q.

End Js.

(** ** activationStore.ts *)

Module ActivationStore.
Import Js.
Local Open Scope Q_scope.

Record NodeActivation := {
  thoughtId : string;
  level : Q;
  lastActivatedAt : Q;
  decayStartsAt : Q;
}.

Record ActivationState := {
  activations : gmap string NodeActivation;
  glowDuration : Q;
  decayDuration : Q;
  proximityBoost : Q;
}.

Definition initialState : ActivationState := {|
  activations := ∅;
  glowDuration := 30000;
  decayDuration := 60000;
  proximityBoost := 3 # 10;
|}.

Definition setActivations (m : gmap string NodeActivation) (s : ActivationState)
  : ActivationState :=
  {| activations := m;
     glowDuration := glowDuration s;
     decayDuration := decayDuration s;
     proximityBoost := proximityBoost s |}.

(** [intensity: number = 1] *)
Definition intensityOr1 (intensity : option Q) : Q := default 1 intensity.

Definition activateNode (now : Q) (id : string) (intensity : option Q)
    (s : ActivationState) : ActivationState :=
  setActivations
    (<[id := {| thoughtId := id;
                level := Qmin 1 (intensityOr1 intensity);
                lastActivatedAt := now;
                decayStartsAt := now + glowDuration s |}]> (activations s))
    s.

(** The [forEach] of [activateNodes]: [index] counts the elements done. *)
Fixpoint staggered (now glow lvl : Q) (ids : list string) (index : Z)
    (m : gmap string NodeActivation) : gmap string NodeActivation :=
  match ids with
  | [] => m
  | id :: rest =>
      let staggerDelay := inject_Z index * 200 in
      staggered now glow lvl rest (index + 1)%Z
        (<[id := {| thoughtId := id;
                    level := lvl;
                    lastActivatedAt := now + staggerDelay;
                    decayStartsAt := now + staggerDelay + glow |}]> m)
  end.

Definition activateNodes (now : Q) (ids : list string) (intensity : option Q)
    (s : ActivationState) : ActivationState :=
  setActivations
    (staggered now (glowDuration s) (Qmin 1 (intensityOr1 intensity)) ids 0
       (activations s))
    s.

Definition maxProximityDistance : Q := 20.

Definition proximityLevel (s : ActivationState) (distance : Q) : Q :=
  (1 - distance / maxProximityDistance) * proximityBoost s.

Definition setProximityActivation (now : Q) (id : string) (distance : Q)
    (s : ActivationState) : ActivationState :=
  let existing := activations s !! id in
  if Qltb distance maxProximityDistance then
    let boost := proximityLevel s distance in
    let record (lvl seen : Q) :=
      {| thoughtId := id;
         level := Qmax lvl boost;
         lastActivatedAt := seen;
         decayStartsAt := now + 2000 |} in
    match existing with
    | None => setActivations (<[id := record 0 now]> (activations s)) s
    | Some e =>
        if Qltb (level e) boost then
          setActivations
            (<[id := record (orElse (level e) 0) (orElse (lastActivatedAt e) now)]>
               (activations s)) s
        else s
    end
  else s.

Definition getActivation (now : Q) (id : string) (s : ActivationState) : Q :=
  match activations s !! id with
  | None => 0
  | Some activation =>
      if Qltb now (decayStartsAt activation) then level activation
      else
        let decayElapsed := now - decayStartsAt activation in
        let decayProgress := Qmin 1 (decayElapsed / decayDuration s) in
        let easedDecay := 1 - pow2 decayProgress in
        level activation * easedDecay
  end.

Definition decayed (now d : Q) (a : NodeActivation) : bool :=
  Qltb d (now - decayStartsAt a).

Definition alive (now d : Q) (a : NodeActivation) : bool :=
  Qltb (now - decayStartsAt a) d.

Definition tick (now : Q) (s : ActivationState) : ActivationState :=
  let needsCleanup :=
    existsb (fun kv => decayed now (decayDuration s) (snd kv))
            (map_to_list (activations s)) in
  if needsCleanup then
    setActivations
      (filter (fun kv => alive now (decayDuration s) (snd kv) = true)
              (activations s)) s
  else s.




(** The level stored for a thought; a thought without a record has none,
    which every reader treats as 0. *)
Definition storedLevel (id : string) (s : ActivationState) : Q :=
  match activations s !! id with
  | None => 0
  | Some a => level a
  end.


(** The documented range of a level: every record of the store is in 0-1. *)
Definition levelsInUnit (s : ActivationState) : Prop :=
  forall id a, activations s !! id = Some a -> 0 <= level a /\ level a <= 1.

End ActivationStore.

(** ** thinkingStore.ts *)

Module ThinkingStore.
Import Js.
Local Open Scope Q_scope.

Record ThinkingState := {
  activePath : list string;
  pathProgress : Z;
  isThinking : bool;
  synthesisId : option string;
  thinkingStartTime : option Q;
  traversalSpeed : Q;
}.

Definition initialState : ThinkingState := {|
  activePath := [];
  pathProgress := 0;
  isThinking := false;
  synthesisId := None;
  thinkingStartTime := None;
  traversalSpeed := 2;
|}.

(** [synthesisId || null]: a missing or empty string becomes [null]. *)
Definition orNull (synthesis : option string) : option string :=
  match synthesis with
  | Some EmptyString => None
  | other => other
  end.

(** The synchronous part of [startThinking]; the interval it installs is
    [intervalTick], the timeout of the last tick is [settle]. *)
Definition startThinking (now : Q) (pathIds : list string)
    (synthesis : option string) (s : ThinkingState) : ThinkingState :=
  {| activePath := pathIds;
     pathProgress := 0;
     isThinking := true;
     synthesisId := orNull synthesis;
     thinkingStartTime := Some now;
     traversalSpeed := traversalSpeed s |}.

Definition setPathProgress (k : Z) (s : ThinkingState) : ThinkingState :=
  {| activePath := activePath s;
     pathProgress := k;
     isThinking := isThinking s;
     synthesisId := synthesisId s;
     thinkingStartTime := thinkingStartTime s;
     traversalSpeed := traversalSpeed s |}.

Inductive TickOutcome :=
| IntervalCleared
| EndReached
| Advanced.

Definition intervalTick (s : ThinkingState) : ThinkingState * TickOutcome :=
  if negb (isThinking s) then (s, IntervalCleared)
  else
    let nextProgress := (pathProgress s + 1)%Z in
    if (Z.of_nat (length (activePath s)) <=? nextProgress)%Z
    then (s, EndReached)
    else (setPathProgress nextProgress s, Advanced).

Definition settle (s : ThinkingState) : ThinkingState :=
  {| activePath := activePath s;
     pathProgress := pathProgress s;
     isThinking := false;
     synthesisId := synthesisId s;
     thinkingStartTime := thinkingStartTime s;
     traversalSpeed := traversalSpeed s |}.

Definition advancePath (s : ThinkingState) : ThinkingState :=
  if (pathProgress s <? Z.of_nat (length (activePath s)) - 1)%Z
  then setPathProgress (pathProgress s + 1)%Z s
  else s.

Definition stopThinking (s : ThinkingState) : ThinkingState :=
  {| activePath := [];
     pathProgress := 0;
     isThinking := false;
     synthesisId := None;
     thinkingStartTime := None;
     traversalSpeed := traversalSpeed s |}.

Definition setTraversalSpeed (speed : Q) (s : ThinkingState) : ThinkingState :=
  {| activePath := activePath s;
     pathProgress := pathProgress s;
     isThinking := isThinking s;
     synthesisId := synthesisId s;
     thinkingStartTime := thinkingStartTime s;
     traversalSpeed := Qmax (1 # 2) (Qmin 10 speed) |}.

(** [Array.prototype.indexOf]: first position of [x], or [-1]. *)
Fixpoint indexOfFrom (i : Z) (l : list string) (x : string) : Z :=
  match l with
  | [] => (-1)%Z
  | y :: rest => if bool_decide (y = x) then i else indexOfFrom (i + 1)%Z rest x
  end.

Definition indexOf (l : list string) (x : string) : Z := indexOfFrom 0 l x.

Definition isInPath (id : string) (s : ThinkingState) : bool :=
  bool_decide (id ∈ activePath s).

Definition getActivation (id : string) (s : ThinkingState) : Q :=
  if negb (isThinking s) && bool_decide (length (activePath s) = 0%nat) then 0
  else
    let index := indexOf (activePath s) id in
    if (index =? -1)%Z then 0
    else if bool_decide (Some id = synthesisId s) then
      if (Z.of_nat (length (activePath s)) - 1 <=? pathProgress s)%Z
      then 1 else 3 # 10
    else if (index <=? pathProgress s)%Z then
      let distanceFromHead := (pathProgress s - index)%Z in
      Qmax (4 # 10) (1 - inject_Z distanceFromHead * (15 # 100))
    else 15 # 100.

(** The cursor is on the path (at 0 when the path is empty). *)
Definition cursorOnPath (s : ThinkingState) : Prop :=
  (0 <= pathProgress s)%Z
  /\ (pathProgress s <= Z.max 0 (Z.of_nat (length (activePath s)) - 1))%Z.

(** [n] runs of the callback of the interval, while it is installed. *)
Definition intervalTicks (n : nat) (s : ThinkingState) : ThinkingState :=
  Nat.iter n (fun s => fst (intervalTick s)) s.

End ThinkingStore.

(** ** timelineStore.ts *)

Module TimelineStore.
Import Js.
Local Open Scope Q_scope.

(** [createdAt: Date | string].  The time value of a [Date] is a number or
    NaN ([None]); a string is turned into a [Date] by the host's parser,
    which is taken as a parameter [parse] where it is needed. *)
Inductive DateLike :=
| DateObj (time : option Q)
| DateString (text : string).

Definition itemTimeOf (parse : string -> option Q) (createdAt : DateLike)
  : option Q :=
  match createdAt with
  | DateObj time => time
  | DateString text => parse text
  end.

Record TimelineState := {
  isActive : bool;
  currentTime : Q;
  startTime : Q;
  endTime : Q;
  isPlaying : bool;
  playbackSpeed : Q;
}.

Definition withTime (t : Q) (playing : bool) (s : TimelineState) : TimelineState :=
  {| isActive := isActive s;
     currentTime := t;
     startTime := startTime s;
     endTime := endTime s;
     isPlaying := playing;
     playbackSpeed := playbackSpeed s |}.

Definition exitTimeline (now : Q) (s : TimelineState) : TimelineState :=
  {| isActive := false;
     currentTime := now;
     startTime := startTime s;
     endTime := endTime s;
     isPlaying := false;
     playbackSpeed := playbackSpeed s |}.

Definition setCurrentTime (time : Q) (s : TimelineState) : TimelineState :=
  withTime (Qmax (startTime s) (Qmin (endTime s) time)) (isPlaying s) s.

Definition play (s : TimelineState) : TimelineState :=
  withTime (currentTime s) true s.

Definition pause (s : TimelineState) : TimelineState :=
  withTime (currentTime s) false s.

Definition togglePlayback (s : TimelineState) : TimelineState :=
  if negb (isPlaying s) && Qle_bool (endTime s) (currentTime s)
  then withTime (startTime s) true s
  else withTime (currentTime s) (negb (isPlaying s)) s.

Definition tick (delta : Q) (s : TimelineState) : TimelineState :=
  if negb (isActive s) || negb (isPlaying s) then s
  else
    let advance := delta * 1000 * playbackSpeed s in
    let newTime := currentTime s + advance in
    if Qle_bool (endTime s) newTime
    then withTime (endTime s) false s
    else withTime newTime (isPlaying s) s.

Definition getProgress (s : TimelineState) : Q :=
  if Qeq_bool (endTime s) (startTime s) then 1
  else (currentTime s - startTime s) / (endTime s - startTime s).

Definition setProgress (progress : Q) (s : TimelineState) : TimelineState :=
  let clampedProgress := Qmax 0 (Qmin 1 progress) in
  let newTime := startTime s + (endTime s - startTime s) * clampedProgress in
  withTime newTime (isPlaying s) s.

(** A comparison with NaN is false. *)
Definition isVisible (parse : string -> option Q) (createdAt : DateLike)
    (s : TimelineState) : bool :=
  if negb (isActive s) then true
  else
    match itemTimeOf parse createdAt with
    | None => false
    | Some itemTime => Qle_bool itemTime (currentTime s)
    end.

Definition fadeWindow : Q := 2000.

Definition getVisibility (parse : string -> option Q) (createdAt : DateLike)
    (s : TimelineState) : Q :=
  if negb (isActive s) then 1
  else
    match itemTimeOf parse createdAt with
    | None => 1
    | Some itemTime =>
        if Qltb (currentTime s) itemTime then 0
        else
          let timeSinceAppeared := currentTime s - itemTime in
          if Qltb timeSinceAppeared fadeWindow
          then timeSinceAppeared / fadeWindow
          else 1
    end.

(** The clock is within the bounds of the timeline. *)
Definition clockInRange (s : TimelineState) : Prop :=
  startTime s <= currentTime s /\ currentTime s <= endTime s.

(** [enterTimeline], given the list [times] that the [map] of its second
    statement computes from the thoughts (their dates being valid):
    [Math.min(...times)] and [Math.max(...times, Date.now())]. *)
Definition enterTimeline (now : Q) (times : list Q) (s : TimelineState)
  : TimelineState :=
  match times with
  | [] => s
  | t :: rest =>
      {| isActive := true;
         currentTime := foldl Qmin t rest;
         startTime := foldl Qmin t rest;
         endTime := Qmax (foldl Qmax t rest) now;
         isPlaying := false;
         playbackSpeed := playbackSpeed s |}
  end.

Definition setPlaybackSpeed (speed : Q) (s : TimelineState) : TimelineState :=
  {| isActive := isActive s;
     currentTime := currentTime s;
     startTime := startTime s;
     endTime := endTime s;
     isPlaying := isPlaying s;
     playbackSpeed := Qmax 1 (Qmin 1000 speed) |}.

End TimelineStore.


(** ** mindStore.ts *)

Module MindStore.
Import Js.
Local Open Scope Q_scope.

Record Position := { px : Q; py : Q; pz : Q }.

Record Thought := {
  thought_id : string;
  content : string;
  category : string;
  importance : Q;
  position : Position;
  createdAt : TimelineStore.DateLike;
  lastReferenced : TimelineStore.DateLike;
}.

Record Connection := {
  connection_id : string;
  fromThought : string;
  toThought : string;
  strength : Q;
  reason : string;
}.

Record Cluster := {
  cluster_id : string;
  name : string;
  cluster_category : string;
  center : Position;
  thoughtCount : Z;
}.

Record MindState := {
  thoughts : list Thought;
  connections : list Connection;
  clusters : list Cluster;
  useSpatialLoading : bool;
  totalThoughtCount : Z;
}.

Definition initialState : MindState := {|
  thoughts := [];
  connections := [];
  clusters := [];
  useSpatialLoading := false;
  totalThoughtCount := 0;
|}.

(** The commands of the backing store that the loaders invoke.  A command
    that rejects answers [None].  The answers are given after the
    field-by-field conversions [rustToThought], [rustToConnection] and
    [rustToCluster]. *)
Record Backend := {
  get_thought_count : option Z;
  get_all_thoughts : option (list Thought);
  get_all_connections : option (list Connection);
  get_all_clusters : option (list Cluster);
  get_thoughts_near : Q -> Q -> Q -> Q -> Z -> option (list Thought);
  get_connections_for_thoughts : list string -> option (list Connection);
}.

(** *** findReasoningPath *)

Definition touches (newThoughtId : string) (c : Connection) : Prop :=
  toThought c = newThoughtId \/ fromThought c = newThoughtId.

Definition connectedIdOf (newThoughtId : string) (c : Connection) : string :=
  if bool_decide (fromThought c = newThoughtId) then toThought c else fromThought c.

(** [[...l].sort((a, b) => b.strength - a.strength)].  The sort of the
    language is stable, and with this comparator its result is the one of a
    stable insertion: an element goes in front of the first element of the
    sorted rest that is not stronger than it. *)
Fixpoint insertByStrength (c : Connection) (sorted : list Connection)
  : list Connection :=
  match sorted with
  | [] => [c]
  | d :: rest =>
      if Qle_bool (strength d) (strength c) then c :: d :: rest
      else d :: insertByStrength c rest
  end.

Definition sortByStrength (l : list Connection) : list Connection :=
  foldr insertByStrength [] l.

Definition findThought (wanted : string) (ts : list Thought) : option Thought :=
  List.find (fun t => bool_decide (thought_id t = wanted)) ts.

Definition maxPathLength : nat := 4.

(** One turn of the [for] loop. *)
Definition pathStep (newThoughtId : string) (ts : list Thought)
    (path : list string) (conn : Connection) : list string :=
  let connectedId := connectedIdOf newThoughtId conn in
  match findThought connectedId ts with
  | Some _ =>
      if bool_decide (connectedId ∈ path) then path else path ++ [connectedId]
  | None => path
  end.

Definition connectedToNew (newThoughtId : string) (cs : list Connection)
  : list Connection :=
  filter (touches newThoughtId) cs.

(** The ids pushed by the loop, before the new thought is appended. *)
Definition chainOf (newThoughtId : string) (ts : list Thought)
    (cs : list Connection) : list string :=
  let sortedConnections := sortByStrength (connectedToNew newThoughtId cs) in
  foldl (pathStep newThoughtId ts) []
    (take (Nat.min (length sortedConnections) (maxPathLength - 1)) sortedConnections).

Definition findReasoningPath (newThoughtId : string) (ts : list Thought)
    (cs : list Connection) : list string :=
  if bool_decide (length (connectedToNew newThoughtId cs) = 0%nat)
  then [newThoughtId]
  else chainOf newThoughtId ts cs ++ [newThoughtId].

(** [a] is at least as strong as [b]: the order of the sorted connections. *)
Definition stronger (a b : Connection) : Prop := strength b <= strength a.

Definition selfConnection (newThoughtId : string) (c : Connection) : Prop :=
  fromThought c = newThoughtId /\ toThought c = newThoughtId.

(** *** Loading *)

Definition SPATIAL_THRESHOLD : Z := 500.
Definition DEFAULT_SPATIAL_RADIUS : Q := 80.
Definition DEFAULT_SPATIAL_LIMIT : Z := 300.

Definition shouldUseSpatial (totalCount : Z) : bool :=
  (SPATIAL_THRESHOLD <? totalCount)%Z.

Section Demo.

(** The demo data carries [new Date()] of the time the module was loaded. *)
Variable loadedAt : Q.

Definition demoThought (i c cat : string) (imp x y z : Q) : Thought :=
  {| thought_id := i; content := c; category := cat; importance := imp;
     position := {| px := x; py := y; pz := z |};
     createdAt := TimelineStore.DateObj (Some loadedAt);
     lastReferenced := TimelineStore.DateObj (Some loadedAt) |}.

Definition demoThoughts : list Thought :=
  [ demoThought "1" "The Mind: A 3D visualization of AI thought"
      "creative" (9 # 10) 0 0 0;
    demoThought "2" "MCP Protocol integration with Claude Desktop"
      "technical" (8 # 10) 10 5 (-5);
    demoThought "3" "React Three Fiber for 3D rendering"
      "technical" (7 # 10) (-8) 3 8;
    demoThought "4" "SQLite database for thought persistence"
      "work" (6 # 10) 5 (-7) 3;
    demoThought "5" "User experience and visual design"
      "personal" (5 # 10) (-12) 8 (-10) ].

Definition demoConnections : list Connection :=
  [ {| connection_id := "c1"; fromThought := "1"; toThought := "2";
       strength := 8 # 10; reason := "Core architecture" |};
    {| connection_id := "c2"; fromThought := "1"; toThought := "3";
       strength := 7 # 10; reason := "Visualization layer" |};
    {| connection_id := "c3"; fromThought := "2"; toThought := "4";
       strength := 6 # 10; reason := "Data persistence" |};
    {| connection_id := "c4"; fromThought := "3"; toThought := "5";
       strength := 5 # 10; reason := "Design considerations" |} ].

Definition setGraph (ts : list Thought) (cs : list Connection) (s : MindState)
  : MindState :=
  {| thoughts := ts; connections := cs; clusters := clusters s;
     useSpatialLoading := useSpatialLoading s;
     totalThoughtCount := totalThoughtCount s |}.

Definition useDemo (s : MindState) : MindState :=
  setGraph demoThoughts demoConnections s.

(** [loadFromDatabase].  When the store is empty the demo data is written
    back with [add_thought] and [add_connection]; whether those succeed or
    reject, the store ends with the demo data. *)
Definition loadFromDatabase (tauri : bool) (b : Backend) (s : MindState)
  : MindState :=
  if tauri then
    let totalCount := default 0%Z (get_thought_count b) in
    if shouldUseSpatial totalCount then
      {| thoughts := thoughts s; connections := connections s;
         clusters := clusters s;
         useSpatialLoading := true; totalThoughtCount := totalCount |}
    else
      match get_all_thoughts b, get_all_connections b with
      | Some ts, Some cs =>
          let loaded :=
            {| thoughts := ts; connections := cs;
               clusters := default [] (get_all_clusters b);
               useSpatialLoading := false; totalThoughtCount := totalCount |} in
          if bool_decide (length ts = 0%nat) then useDemo loaded else loaded
      | _, _ => useDemo s
      end
  else useDemo s.

End Demo.

(** The queries of a windowed load, in the order of the [try] block. *)
Definition windowQuery (b : Backend) (x y z radius : Q) (limit : Z)
  : option (list Thought * list Connection) :=
  match get_thoughts_near b x y z radius limit with
  | None => None
  | Some ts =>
      let ids := thought_id <$> ts in
      if bool_decide (length ids = 0%nat) then Some (ts, [])
      else
        match get_connections_for_thoughts b ids with
        | None => None
        | Some cs => Some (ts, cs)
        end
  end.

(** [loadNearCamera]; [None] is a rejected promise, which leaves the store
    as it was.  [radius] and [limit] are optional arguments. *)
Definition loadNearCamera (tauri : bool) (b : Backend) (x y z : Q)
    (radius : option Q) (limit : option Z) (s : MindState) : option MindState :=
  if negb tauri then Some s
  else
    match windowQuery b x y z (default DEFAULT_SPATIAL_RADIUS radius)
            (default DEFAULT_SPATIAL_LIMIT limit) with
    | Some (ts, cs) =>
        Some {| thoughts := ts; connections := cs; clusters := clusters s;
                useSpatialLoading := useSpatialLoading s;
                totalThoughtCount := totalThoughtCount s |}
    | None =>
        match get_all_thoughts b, get_all_connections b with
        | Some ts, Some cs =>
            Some {| thoughts := ts; connections := cs; clusters := clusters s;
                    useSpatialLoading := false;
                    totalThoughtCount := totalThoughtCount s |}
        | _, _ => None
        end
    end.

(** What the interface of the backing store promises for the spatial query:
    it answers no more thoughts than the cap it is given. *)
Definition honoursLimit (b : Backend) : Prop :=
  forall (x y z radius : Q) (limit : Z) (ts : list Thought),
    get_thoughts_near b x y z radius limit = Some ts ->
    (Z.of_nat (length ts) <= limit)%Z.

(** The decision of the window manager in the words of the specification:
    [Full] up to the threshold, [Windowed] with the fixed radius and cap
    above it.  It is compared with [loadFromDatabase] and [loadNearCamera]
    below, which are what the program runs. *)
Inductive LoadMode :=
| Full
| Windowed (radius : Q) (limit : Z).

Definition spec_decide (totalCount threshold : Z) : LoadMode :=
  if (totalCount <=? threshold)%Z then Full else Windowed 80 300.

(** *** addThought, on the three stores it touches *)

Record Stores := {
  mind : MindState;
  thinking : ThinkingStore.ThinkingState;
  activation : ActivationStore.ActivationState;
}.

Definition addThought (now : Q) (thought : Thought) (w : Stores) : Stores :=
  let state := mind w in
  let connectedIds :=
    findReasoningPath (thought_id thought) (thoughts state) (connections state) in
  let thinking' :=
    if (1 <? length connectedIds)%nat
    then ThinkingStore.startThinking now connectedIds (Some (thought_id thought))
           (thinking w)
    else thinking w in
  let lit :=
    ActivationStore.activateNode now (thought_id thought) (Some 1) (activation w) in
  let connectedThoughts :=
    connectedIdOf (thought_id thought)
      <$> connectedToNew (thought_id thought) (connections state) in
  let activation' :=
    if (0 <? length connectedThoughts)%nat
    then ActivationStore.activateNodes now connectedThoughts (Some (6 # 10)) lit
    else lit in
  {| mind := setGraph (thoughts state ++ [thought]) (connections state) state;
     thinking := thinking';
     activation := activation' |}.

(** *** addConnection, on the stores it touches *)

Definition addConnection (now : Q) (connection : Connection) (w : Stores)
  : Stores :=
  {| mind := setGraph (thoughts (mind w)) (connections (mind w) ++ [connection])
               (mind w);
     thinking := thinking w;
     activation :=
       ActivationStore.activateNodes now
         [fromThought connection; toThought connection] (Some (8 # 10))
         (activation w) |}.

End MindStore.


(** ** hooks/useDatabaseSync.ts *)

Module DatabaseSync.
Import MindStore.
Local Open Scope Z_scope.

Record DbVersion := {
  thought_max_id : Z;
  connection_max_id : Z;
}.

(** [useRef({ thought_max_id: -1, connection_max_id: -1 })] *)
Definition initialVersion : DbVersion :=
  {| thought_max_id := -1; connection_max_id := -1 |}.

(** The condition of the [if]: [!==] on either component. *)
Definition versionChanged (version prev : DbVersion) : bool :=
  negb (thought_max_id version =? thought_max_id prev)
  || negb (connection_max_id version =? connection_max_id prev).

Inductive LoadCall :=
| CallLoadNearCamera (x y z : Q)
| CallLoadFromDatabase.

Record SyncState := {
  lastVersion : DbVersion;
  store : MindState;
}.

Section Poll.

Variable loadedAt : Q.
Variable tauri : bool.

(** One run of [checkForUpdates].  [version] is the answer of
    [get_db_version] ([None]: the command rejects), [b] the backing store as
    the loads of this run see it.  [spatialRef.current] is the store's
    [useSpatialLoading].  The result carries the loads that were called. *)
Definition checkForUpdates (version : option DbVersion) (b : Backend)
    (st : SyncState) : SyncState * list LoadCall :=
  if negb tauri then (st, [])
  else
    let fallback (prev : DbVersion) (s : MindState) :=
      ({| lastVersion := prev; store := loadFromDatabase loadedAt tauri b s |},
       [CallLoadFromDatabase]) in
    match version with
    | None => fallback (lastVersion st) (store st)
    | Some version =>
        let prev := lastVersion st in
        if versionChanged version prev then
          if useSpatialLoading (store st) then
            match loadNearCamera tauri b 0 0 50 None None (store st) with
            | Some s' =>
                ({| lastVersion := version; store := s' |},
                 [CallLoadNearCamera 0 0 50])
            | None =>
                let '(st', calls) := fallback version (store st) in
                (st', CallLoadNearCamera 0 0 50 :: calls)
            end
          else
            ({| lastVersion := version;
                store := loadFromDatabase loadedAt tauri b (store st) |},
             [CallLoadFromDatabase])
        else (st, [])
    end.

Definition reloads (calls : list LoadCall) : bool :=
  negb (bool_decide (calls = [])).

(** The polls of the interval, one after the other: each poll has the token
    it was answered and the backing store of that moment.  The result says,
    poll by poll, whether a reload was triggered. *)
Fixpoint pollAll (polls : list (DbVersion * Backend)) (st : SyncState)
  : list bool :=
  match polls with
  | [] => []
  | (version, b) :: rest =>
      let '(st', calls) := checkForUpdates (Some version) b st in
      reloads calls :: pollAll rest st'
  end.

(** The token accepted last, poll by poll (before the poll). *)
Fixpoint acceptedBefore (polls : list (DbVersion * Backend)) (st : SyncState)
  : list DbVersion :=
  match polls with
  | [] => []
  | (version, b) :: rest =>
      lastVersion st :: acceptedBefore rest (fst (checkForUpdates (Some version) b st))
  end.

End Poll.

Definition strictlyIncreased (version prev : DbVersion) : Prop :=
  thought_max_id prev < thought_max_id version
  \/ connection_max_id prev < connection_max_id version.

Definition notBelow (version prev : DbVersion) : Prop :=
  thought_max_id prev <= thought_max_id version
  /\ connection_max_id prev <= connection_max_id version.

End DatabaseSync.

(** ** components/MindSpace.tsx *)

Module MindSpace.
Import MindStore.

(** The properties handed to an [AxonConnection]. *)
Record Axon := {
  connectionId : string;
  axonStart : Position;
  axonEnd : Position;
  startColor : string;
  endColor : string;
  fromThoughtId : string;
  toThoughtId : string;
  axonStrength : Q;
}.

Section Render.

Variable parse : string -> option Q.
Variable timeline : TimelineStore.TimelineState.

Definition isTimeline : bool := TimelineStore.isActive timeline.

Definition isTimelineVisible (d : TimelineStore.DateLike) : bool :=
  TimelineStore.isVisible parse d timeline.

(** The callback of the [filter] in timeline mode. *)
Definition shownInTimeline (ts : list Thought) (conn : Connection) : bool :=
  match findThought (fromThought conn) ts, findThought (toThought conn) ts with
  | Some fromT, Some toT =>
      isTimelineVisible (createdAt fromT) && isTimelineVisible (createdAt toT)
  | _, _ => false
  end.

Definition visibleConnections (ts : list Thought) (cs : list Connection)
  : list Connection :=
  if negb isTimeline then cs else List.filter (shownInTimeline ts) cs.

(** The callback of the [map] in the returned tree: [null] is [None].  The
    colour of a category is its name here; the table [CATEGORY_COLORS] only
    renames it. *)
Definition renderConnection (ts : list Thought) (connection : Connection)
  : option Axon :=
  match findThought (fromThought connection) ts,
        findThought (toThought connection) ts with
  | Some fromT, Some toT =>
      Some {| connectionId := connection_id connection;
              axonStart := position fromT;
              axonEnd := position toT;
              startColor := category fromT;
              endColor := category toT;
              fromThoughtId := fromThought connection;
              toThoughtId := toThought connection;
              axonStrength := strength connection |}
  | _, _ => None
  end.

(** The children of the group: one entry per visible connection. *)
Definition renderAxons (ts : list Thought) (cs : list Connection)
  : list (option Axon) :=
  renderConnection ts <$> visibleConnections ts cs.

(** What React mounts: the entries that are not [null]. *)
Definition mountedAxons (ts : list Thought) (cs : list Connection) : list Axon :=
  omap id (renderAxons ts cs).

End Render.

(** *** Spatial pagination in [useFrame] *)

Definition SPATIAL_MOVE_THRESHOLD : Q := 20.
Definition SPATIAL_RELOAD_COOLDOWN : Q := 1.

Record SpatialRefs := {
  lastSpatialPos : Position;
  spatialCooldown : Q;
  spatialLoadPending : bool;
}.

Definition initialRefs : SpatialRefs :=
  {| lastSpatialPos := {| px := 0; py := 0; pz := 50 |};
     spatialCooldown := 0;
     spatialLoadPending := false |}.

(** The square of [a.distanceTo(b)]. *)
Definition distanceToSquared (a b : Position) : Q :=
  ((px a - px b) * (px a - px b) + (py a - py b) * (py a - py b)
   + (pz a - pz b) * (pz a - pz b))%Q.

(** [dist > SPATIAL_MOVE_THRESHOLD]: the distance is a square root, and it
    exceeds the threshold exactly when its square exceeds the square of the
    threshold. *)
Definition movedFar (a b : Position) : bool :=
  Js.Qltb (SPATIAL_MOVE_THRESHOLD * SPATIAL_MOVE_THRESHOLD)%Q
          (distanceToSquared a b).

(** The spatial part of one frame: the references after it, and the camera
    position of the load it starts, if it starts one. *)
Definition spatialFrame (spatial : bool) (camPos : Position) (delta : Q)
    (r : SpatialRefs) : SpatialRefs * option Position :=
  if spatial then
    let cooldown := (spatialCooldown r - delta)%Q in
    if movedFar (lastSpatialPos r) camPos && Qle_bool cooldown 0
       && negb (spatialLoadPending r)
    then ({| lastSpatialPos := camPos;
             spatialCooldown := SPATIAL_RELOAD_COOLDOWN;
             spatialLoadPending := true |}, Some camPos)
    else ({| lastSpatialPos := lastSpatialPos r;
             spatialCooldown := cooldown;
             spatialLoadPending := spatialLoadPending r |}, None)
  else (r, None).

(** The [finally] of the load. *)
Definition loadSettled (r : SpatialRefs) : SpatialRefs :=
  {| lastSpatialPos := lastSpatialPos r;
     spatialCooldown := spatialCooldown r;
     spatialLoadPending := false |}.

Inductive SpatialEvent :=
| Frame (camPos : Position) (delta : Q)
| Settled.

(** A run of events in spatial mode; the result lists the loads started. *)
Fixpoint spatialRun (events : list SpatialEvent) (r : SpatialRefs)
  : SpatialRefs * list Position :=
  match events with
  | [] => (r, [])
  | Frame camPos delta :: rest =>
      let '(r', started) := spatialFrame true camPos delta r in
      let '(r'', later) := spatialRun rest r' in
      (r'', match started with Some c => c :: later | None => later end)
  | Settled :: rest => spatialRun rest (loadSettled r)
  end.

Definition isFrame (e : SpatialEvent) : Prop :=
  match e with Frame _ _ => True | Settled => False end.

(** The time that passes in the frames of a run, and whether no frame
    runs backwards. *)
Fixpoint elapsed (events : list SpatialEvent) : Q :=
  match events with
  | [] => 0
  | Frame _ delta :: rest => (delta + elapsed rest)%Q
  | Settled :: rest => elapsed rest
  end.

Definition forwardFrame (e : SpatialEvent) : Prop :=
  match e with Frame _ delta => (0 <= delta)%Q | Settled => True end.

End MindSpace.


(** ** stores/idleStore.ts *)

Module IdleStore.
Import Js.
Local Open Scope Q_scope.

Record IdleState := {
  lastInputTime : Q;
  isIdle : bool;
  idleTimeoutMs : Q;
}.

Definition DEFAULT_IDLE_TIMEOUT : Q := 5 * 60 * 1000.

(** The store as created at time [now]. *)
Definition initialState (now : Q) : IdleState :=
  {| lastInputTime := now; isIdle := false;
     idleTimeoutMs := DEFAULT_IDLE_TIMEOUT |}.

Definition resetActivity (now : Q) (s : IdleState) : IdleState :=
  {| lastInputTime := now; isIdle := false; idleTimeoutMs := idleTimeoutMs s |}.

Definition checkIdle (now : Q) (s : IdleState) : IdleState :=
  let shouldBeIdle := Qltb (idleTimeoutMs s) (now - lastInputTime s) in
  if shouldBeIdle && negb (isIdle s)
  then {| lastInputTime := lastInputTime s; isIdle := true;
          idleTimeoutMs := idleTimeoutMs s |}
  else s.

Definition setIdleTimeout (ms : Q) (s : IdleState) : IdleState :=
  {| lastInputTime := lastInputTime s; isIdle := isIdle s; idleTimeoutMs := ms |}.

(** The checks of the interval at the given times, one after the other. *)
Definition checksAt (times : list Q) (s : IdleState) : IdleState :=
  foldl (fun s t => checkIdle t s) s times.

End IdleStore.

(** ** components/ThoughtCard.tsx and components/AxonConnection.tsx *)

Module ThoughtCard.
Local Open Scope Z_scope.

(** [x | 0]: the 32-bit two's complement integer of [x]. *)
Definition toInt32 (x : Z) : Z := (x + 2 ^ 31) mod 2 ^ 32 - 2 ^ 31.

(** One turn of the loop: [hash = ((hash << 5) - hash) + code; hash |= 0].
    The shift wraps to 32 bits; the subtraction and the sum are exact. *)
Definition hashStep (hash : Z) (code : Z) : Z :=
  toInt32 (toInt32 (Z.shiftl (toInt32 hash) 5) - hash + code).

(** [id.charCodeAt(i)] for [i] along the id; an id is a string of ASCII
    characters, one code per character. *)
Definition charCodes (s : string) : list Z :=
  (fun a => Z.of_nat (Ascii.nat_of_ascii a)) <$> String.list_ascii_of_string s.

Definition hashOf (s : string) : Z := foldl hashStep 0 (charCodes s).

(** [Math.abs(hash % 1000) / 1000]; [%] has the sign of the dividend. *)
Definition seedOf (s : string) : Q :=
  (inject_Z (Z.abs (Z.rem (hashOf s) 1000)) / 1000)%Q.

Definition dormantLevel : Q := 15 # 100.

(** [Math.max(dormantLevel, nodeActivation, thinkingActivation)] *)
Definition combinedActivation (now : Q) (id : string)
    (act : ActivationStore.ActivationState)
    (thinking : ThinkingStore.ThinkingState) : Q :=
  Qmax dormantLevel
       (Qmax (ActivationStore.getActivation now id act)
             (ThinkingStore.getActivation id thinking)).

(** [isInThinkingPath] of a connection: the loop over [activePath]. *)
Fixpoint consecutiveOn (path : list string) (a b : string) : bool :=
  match path with
  | x :: ((y :: _) as rest) =>
      (bool_decide (x = a) && bool_decide (y = b))
      || (bool_decide (x = b) && bool_decide (y = a))
      || consecutiveOn rest a b
  | _ => false
  end.

Definition isInThinkingPath (fromThoughtId toThoughtId : string)
    (s : ThinkingStore.ThinkingState) : bool :=
  if negb (ThinkingStore.isThinking s)
     || (length (ThinkingStore.activePath s) <? 2)%nat
  then false
  else consecutiveOn (ThinkingStore.activePath s) fromThoughtId toThoughtId.

End ThoughtCard.

(** ** Concrete stores and backing stores used in the examples below *)

Module Examples.
Local Open Scope Q_scope.

Definition scrubExample : TimelineStore.TimelineState :=
  {| TimelineStore.isActive := true;
     TimelineStore.currentTime := 3000;
     TimelineStore.startTime := 1000;
     TimelineStore.endTime := 5000;
     TimelineStore.isPlaying := false;
     TimelineStore.playbackSpeed := 100 |}.

(** A backing store none of whose commands answers. *)
Definition offline : MindStore.Backend :=
  {| MindStore.get_thought_count := None;
     MindStore.get_all_thoughts := None;
     MindStore.get_all_connections := None;
     MindStore.get_all_clusters := None;
     MindStore.get_thoughts_near := fun _ _ _ _ _ => None;
     MindStore.get_connections_for_thoughts := fun _ => None |}.

Definition dot (i : string) (x : Q) : MindStore.Thought :=
  MindStore.demoThought 0 i "a thought" "other" (1 # 2) x 0 0.

(** A backing store with 600 thoughts, of which the spatial query answers
    the first [limit] of three that are near. *)
Definition crowded : MindStore.Backend :=
  {| MindStore.get_thought_count := Some 600%Z;
     MindStore.get_all_thoughts := None;
     MindStore.get_all_connections := None;
     MindStore.get_all_clusters := None;
     MindStore.get_thoughts_near := fun _ _ _ _ limit =>
       if (limit <? 0)%Z then None
       else Some (take (Z.to_nat limit) [dot "a" 1; dot "b" 2; dot "c" 3]);
     MindStore.get_connections_for_thoughts := fun _ => Some [] |}.

Definition link (i a b : string) (w : Q) : MindStore.Connection :=
  {| MindStore.connection_id := i; MindStore.fromThought := a;
     MindStore.toThought := b; MindStore.strength := w;
     MindStore.reason := "related" |}.

(** The thought "t9" arrives; "t1" and "t2" are stored, and the store has a
    connection of strength 0.3 with "t2" and one of strength 0.9 with "t1"
    (and one between the two stored thoughts). *)
Definition arrival : MindStore.Stores :=
  {| MindStore.mind :=
       MindStore.setGraph
         [dot "t1" 1; dot "t2" 2]
         [link "c2" "t9" "t2" (3 # 10); link "c0" "t1" "t2" (5 # 10);
          link "c1" "t1" "t9" (9 # 10)]
         MindStore.initialState;
     MindStore.thinking := ThinkingStore.initialState;
     MindStore.activation := ActivationStore.initialState |}.

(** A stored thought "t9" with a connection to itself. *)
Definition selfLinked : MindStore.MindState :=
  MindStore.setGraph [dot "t9" 9] [link "c9" "t9" "t9" (1 # 2)]
    MindStore.initialState.

Definition token (t c : Z) : DatabaseSync.DbVersion :=
  {| DatabaseSync.thought_max_id := t; DatabaseSync.connection_max_id := c |}.

Definition freshSync : DatabaseSync.SyncState :=
  {| DatabaseSync.lastVersion := DatabaseSync.initialVersion;
     DatabaseSync.store := MindStore.initialState |}.

Definition at_ (x y z : Q) : MindStore.Position :=
  {| MindStore.px := x; MindStore.py := y; MindStore.pz := z |}.

(** A hook whose store went into spatial mode on the crowded store. *)
Definition spatialSync : DatabaseSync.SyncState :=
  {| DatabaseSync.lastVersion := token 5 5;
     DatabaseSync.store :=
       MindStore.loadFromDatabase 0 true crowded MindStore.initialState |}.

End Examples.

(** * Properties *)

(** ** Numbers *)

Section NumberFacts.
Import Js.
Local Open Scope Q_scope.

Lemma Qltb_true (a b : Q) : Qltb a b = true -> a < b.
Proof.
  unfold Qltb. intros H. apply negb_true_iff in H.
  destruct (Qlt_le_dec a b) as [Hlt | Hle]; [exact Hlt |].
  apply Qle_bool_iff in Hle. congruence.
Qed.

Lemma Qltb_false (a b : Q) : Qltb a b = false -> b <= a.
Proof.
  unfold Qltb. intros H. apply negb_false_iff in H.
  now apply Qle_bool_iff.
Qed.

Lemma Qltb_lt (a b : Q) : a < b -> Qltb a b = true.
Proof.
  intros H. destruct (Qltb a b) eqn:E; [reflexivity |].
  apply Qltb_false in E. lra.
Qed.

Lemma Qltb_ge (a b : Q) : b <= a -> Qltb a b = false.
Proof.
  intros H. destruct (Qltb a b) eqn:E; [| reflexivity].
  apply Qltb_true in E. lra.
Qed.

Lemma pow2_mult (x : Q) : pow2 x == x * x.
Proof. unfold pow2. simpl. reflexivity. Qed.

Lemma Qmin_1_small (q : Q) : q <= 1 -> Qmin 1 q == q.
Proof.
  intros H. destruct (Q.min_spec 1 q) as [[H1 H2] | [H1 H2]]; lra.
Qed.

Lemma Qmin_1_large (q : Q) : 1 <= q -> Qmin 1 q == 1.
Proof.
  intros H. destruct (Q.min_spec 1 q) as [[H1 H2] | [H1 H2]]; lra.
Qed.

Lemma Qmin_1_bounds (q : Q) : 0 <= q -> 0 <= Qmin 1 q /\ Qmin 1 q <= 1.
Proof.
  intros H. destruct (Q.min_spec 1 q) as [[H1 H2] | [H1 H2]]; lra.
Qed.

Lemma Qmin_1_mono (p q : Q) : p <= q -> Qmin 1 p <= Qmin 1 q.
Proof.
  intros H.
  destruct (Q.min_spec 1 p) as [[? ?] | [? ?]];
    destruct (Q.min_spec 1 q) as [[? ?] | [? ?]]; lra.
Qed.

Lemma Qdiv_mono (a b d : Q) : 0 < d -> a <= b -> a / d <= b / d.
Proof.
  intros Hd Hab. unfold Qdiv.
  apply Qmult_le_compat_r; [exact Hab |].
  apply Qlt_le_weak, Qinv_lt_0_compat, Hd.
Qed.

Lemma Qdiv_nonneg (a d : Q) : 0 < d -> 0 <= a -> 0 <= a / d.
Proof.
  intros Hd Ha. apply Qle_shift_div_l; [exact Hd | lra].
Qed.

Lemma Qdiv_self (d : Q) : 0 < d -> d / d == 1.
Proof. intros Hd. field. lra. Qed.

(** The eased decay falls as the progress grows. *)
Lemma eased_antitone (l p q : Q) :
  0 <= l -> 0 <= p -> p <= q -> l * (1 - pow2 q) <= l * (1 - pow2 p).
Proof.
  intros Hl Hp Hpq. rewrite !pow2_mult.
  assert (p * p <= q * q) by nra.
  nra.
Qed.

End NumberFacts.

(** ** The activation engine *)

Section ActivationFacts.
Import Js ActivationStore.
Local Open Scope Q_scope.

Implicit Types (s : ActivationState) (id : string).




Lemma activateNode_lookup s now id x :
  activations (activateNode now id x s) !! id
  = Some {| thoughtId := id;
            level := Qmin 1 (intensityOr1 x);
            lastActivatedAt := now;
            decayStartsAt := now + glowDuration s |}.
Proof. unfold activateNode. cbn. apply lookup_insert_eq. Qed.

Lemma activateNode_durations s now id x :
  decayDuration (activateNode now id x s) = decayDuration s
  /\ glowDuration (activateNode now id x s) = glowDuration s.
Proof. split; reflexivity. Qed.

(** Reading a record in its glow and in its decay. *)
Lemma getActivation_glow s now id a :
  activations s !! id = Some a -> now < decayStartsAt a ->
  getActivation now id s = level a.
Proof.
  intros Ha Hlt. unfold getActivation. rewrite Ha.
  now rewrite (Qltb_lt _ _ Hlt).
Qed.

Lemma getActivation_decay s now id a :
  activations s !! id = Some a -> decayStartsAt a <= now ->
  getActivation now id s
  = level a * (1 - pow2 (Qmin 1 ((now - decayStartsAt a) / decayDuration s))).
Proof.
  intros Ha Hle. unfold getActivation. rewrite Ha.
  now rewrite (Qltb_ge _ _ Hle).
Qed.

Lemma getActivation_unknown s now id :
  activations s !! id = None -> getActivation now id s = 0.
Proof. intros Ha. unfold getActivation. now rewrite Ha. Qed.

Lemma decay_curve s now id a :
  0 < decayDuration s ->
  activations s !! id = Some a ->
  decayStartsAt a <= now -> now <= decayStartsAt a + decayDuration s ->
  getActivation now id s
  == level a * (1 - ((now - decayStartsAt a) / decayDuration s) ^ 2).
Proof.
  intros HD Ha H1 H2. rewrite (getActivation_decay _ _ _ _ Ha H1).
  assert (Hq : (now - decayStartsAt a) / decayDuration s <= 1).
  { apply Qle_shift_div_r; [exact HD | lra]. }
  pose proof (Qmin_1_small _ Hq) as Hmin.
  fold (pow2 ((now - decayStartsAt a) / decayDuration s)).
  rewrite !pow2_mult. rewrite Hmin. reflexivity.
Qed.

Lemma decay_antitone s id a t1 t2 :
  0 < decayDuration s -> 0 <= level a ->
  activations s !! id = Some a ->
  decayStartsAt a <= t1 -> t1 <= t2 ->
  getActivation t2 id s <= getActivation t1 id s.
Proof.
  intros HD Hl Ha H1 H12.
  rewrite (getActivation_decay _ _ _ _ Ha H1).
  rewrite (getActivation_decay s t2 id a Ha) by lra.
  apply eased_antitone; [exact Hl | |].
  - apply Qmin_1_bounds, Qdiv_nonneg; [exact HD | lra].
  - apply Qmin_1_mono, Qdiv_mono; [exact HD | lra].
Qed.

Lemma decay_end s now id a :
  0 < decayDuration s ->
  activations s !! id = Some a ->
  decayStartsAt a + decayDuration s <= now ->
  getActivation now id s == 0.
Proof.
  intros HD Ha H1.
  rewrite (getActivation_decay s now id a Ha) by lra.
  assert (Hq : 1 <= (now - decayStartsAt a) / decayDuration s).
  { apply Qle_shift_div_l; [exact HD | lra]. }
  pose proof (Qmin_1_large _ Hq) as Hmin.
  rewrite pow2_mult, Hmin. ring.
Qed.

End ActivationFacts.

Section ActivationClaims.
Import Js ActivationStore.
Local Open Scope Q_scope.

Implicit Types (s : ActivationState) (id : string).

(** C3.  A record made by [activateNode id x] at [t0] in a store whose decay
    lasts [D > 0] and whose glow lasts [G]: [getActivation] is the assigned
    level [min(1, x)] at every time before [t0 + G]; from [t0 + G] to
    [t0 + G + D] it is [level * (1 - (elapsed / D)^2)]; for an intensity
    [x >= 0] it never rises from one time of the decay to a later one; it is
    0 at [t0 + G + D] (and after it).  With [G = 30000], [D = 60000] and
    intensity 1 the level is 1 at 29000, 3/4 at 60000 and 0 at 90000.  A
    thought without a record reads 0. *)
Theorem activation_glow_decay_profile s id (x t0 : Q) :
  0 < decayDuration s ->
  let s' := activateNode t0 id (Some x) s in
  let lvl := Qmin 1 x in
  let d0 := t0 + glowDuration s in
  let D := decayDuration s in
  (forall t, t < d0 -> getActivation t id s' == lvl)
  /\ (forall t, d0 <= t -> t <= d0 + D ->
        getActivation t id s' == lvl * (1 - ((t - d0) / D) ^ 2))
  /\ (0 <= x -> forall t1 t2, d0 <= t1 -> t1 <= t2 ->
        getActivation t2 id s' <= getActivation t1 id s')
  /\ (forall t, d0 + D <= t -> getActivation t id s' == 0)
  /\ (glowDuration s == 30000 -> D == 60000 -> x == 1 -> t0 == 0 ->
        getActivation 29000 id s' == 1
        /\ getActivation 60000 id s' == 3 # 4
        /\ getActivation 90000 id s' == 0)
  /\ (forall s0 u t, activations s0 !! u = None -> getActivation t u s0 == 0).
Proof.
  intros HD s' lvl d0 D.
  assert (Hrec : activations s' !! id
                 = Some {| thoughtId := id; level := lvl;
                           lastActivatedAt := t0; decayStartsAt := d0 |})
    by apply (activateNode_lookup s t0 id (Some x)).
  assert (HD' : 0 < decayDuration s') by exact HD.
  assert (Hglow : forall t, t < d0 -> getActivation t id s' == lvl).
  { intros t Ht. now rewrite (getActivation_glow s' t id _ Hrec Ht). }
  assert (Hcurve : forall t, d0 <= t -> t <= d0 + D ->
            getActivation t id s' == lvl * (1 - ((t - d0) / D) ^ 2)).
  { intros t H1 H2. exact (decay_curve s' t id _ HD' Hrec H1 H2). }
  assert (Hend : forall t, d0 + D <= t -> getActivation t id s' == 0).
  { intros t Ht. exact (decay_end s' t id _ HD' Hrec Ht). }
  repeat split.
  - exact Hglow.
  - exact Hcurve.
  - intros Hx t1 t2 H1 H12.
    refine (decay_antitone s' id _ t1 t2 HD' _ Hrec H1 H12).
    cbn. apply Qmin_1_bounds, Hx.
  - exact Hend.
  - rewrite Hglow by (unfold d0; lra).
    unfold lvl. apply Qmin_1_large. lra.
  - eapply Qeq_trans; [apply Hcurve; unfold d0, D in *; lra |].
    assert (Hl : lvl == 1) by (unfold lvl; apply Qmin_1_large; lra).
    assert (Hq : (60000 - d0) / D == 1 # 2).
    { unfold d0, D in *. rewrite H, H0, H2. reflexivity. }
    rewrite Hl, Hq. reflexivity.
  - apply Hend. unfold d0, D in *. lra.
  - intros s0 u t Hu. now rewrite (getActivation_unknown s0 t u Hu).
Qed.

Lemma activation_glow_decay_profile_witness :
  0 < decayDuration initialState
  /\ getActivation 60000 "t1" (activateNode 0 "t1" (Some 1) initialState) == 3 # 4.
Proof.
  split; [reflexivity |].
  apply (activation_glow_decay_profile initialState "t1" 1 0); reflexivity.
Defined.

(** C9.  Activating a thought twice with the same intensity at the same
    timestamp leaves the store, and so the thought's record (level,
    lastActivatedAt, decayStartsAt), exactly as one activation does. *)
Theorem activateNode_idempotent s id (x : option Q) (t : Q) :
  activateNode t id x (activateNode t id x s) = activateNode t id x s
  /\ activations (activateNode t id x (activateNode t id x s)) !! id
     = activations (activateNode t id x s) !! id
  /\ activations (activateNode t id x s) !! id
     = Some {| thoughtId := id;
               level := Qmin 1 (intensityOr1 x);
               lastActivatedAt := t;
               decayStartsAt := t + glowDuration s |}.
Proof.
  assert (E : activateNode t id x (activateNode t id x s) = activateNode t id x s).
  { unfold activateNode, setActivations. cbn. f_equal. apply insert_insert_eq. }
  split; [exact E |]. split; [now rewrite E |]. apply activateNode_lookup.
Qed.

Lemma orElse_zero (x : Q) : orElse x 0 == x.
Proof.
  unfold orElse. destruct (Qeq_bool x 0) eqn:E; [| reflexivity].
  apply Qeq_bool_iff in E. now rewrite E.
Qed.

Lemma proximityLevel_positive s (d : Q) :
  0 < proximityBoost s -> d < 20 -> 0 < proximityLevel s d.
Proof.
  intros Hb Hd. unfold proximityLevel, maxProximityDistance.
  apply Qmult_lt_0_compat; [| exact Hb].
  assert (d / 20 < 1) by (apply Qlt_shift_div_r; [reflexivity | lra]).
  lra.
Qed.

(** C8.  [setProximityActivation id d] in a store whose proximity weight is
    0.3: for [d < 20] the boost is [(1 - d/20) * 0.3]; the stored level
    after the call is the maximum of the stored level before it and the
    boost, so it is never lower; the store changes exactly when the boost
    exceeds the stored level, and the record written then starts its decay
    2000 ms after the call; the other thoughts keep their records.  For
    [d >= 20] the store is left as it was. *)
Theorem proximity_raises_never_lowers s id (now d : Q) :
  proximityBoost s == 3 # 10 ->
  let boost := proximityLevel s d in
  let s' := setProximityActivation now id d s in
  (d < 20 ->
     boost == (1 - d / 20) * (3 # 10)
     /\ storedLevel id s' == Qmax (storedLevel id s) boost
     /\ storedLevel id s <= storedLevel id s'
     /\ (s' <> s -> storedLevel id s < boost)
     /\ (storedLevel id s < boost ->
           exists a, activations s' !! id = Some a
                     /\ level a == boost /\ decayStartsAt a = now + 2000)
     /\ (forall j, j <> id -> activations s' !! j = activations s !! j))
  /\ (20 <= d -> s' = s).
Proof.
  intros Hb boost s'. split.
  - intros Hd.
    assert (Hpos : 0 < boost).
    { apply proximityLevel_positive; [rewrite Hb; reflexivity | exact Hd]. }
    assert (Hboost : boost == (1 - d / 20) * (3 # 10)).
    { unfold boost, proximityLevel, maxProximityDistance. now rewrite Hb. }
    split; [exact Hboost |].
    unfold s', setProximityActivation, storedLevel.
    rewrite (Qltb_lt d maxProximityDistance Hd). fold boost.
    destruct (activations s !! id) as [e |] eqn:He.
    + destruct (Qltb (level e) boost) eqn:Hlt.
      * apply Qltb_true in Hlt. cbn. rewrite lookup_insert_eq. cbn.
        pose proof (orElse_zero (level e)) as Ho.
        assert (Hmax : Qmax (orElse (level e) 0) boost == boost)
          by (apply Q.max_r; lra).
        assert (Hmax' : Qmax (level e) boost == boost)
          by (apply Q.max_r; lra).
        refine (conj _ (conj _ (conj _ (conj _ _)))).
        -- now rewrite Hmax, Hmax'.
        -- rewrite Hmax. lra.
        -- intros _. exact Hlt.
        -- intros _. eexists. split; [reflexivity |]. split; [exact Hmax | reflexivity].
        -- intros j Hj. now apply lookup_insert_ne.
      * apply Qltb_false in Hlt. rewrite He.
        refine (conj _ (conj _ (conj _ (conj _ _)))).
        -- symmetry. apply Q.max_l. exact Hlt.
        -- lra.
        -- intros Hne. now contradiction Hne.
        -- intros Hlt'. lra.
        -- intros j Hj. reflexivity.
    + cbn. rewrite lookup_insert_eq. cbn.
      refine (conj _ (conj _ (conj _ (conj _ _)))).
      * reflexivity.
      * apply Q.le_max_l.
      * intros _. exact Hpos.
      * intros _. eexists. split; [reflexivity |].
        split; [apply Q.max_r; lra | reflexivity].
      * intros j Hj. now apply lookup_insert_ne.
  - intros Hd. unfold s', setProximityActivation.
    now rewrite (Qltb_ge d maxProximityDistance Hd).
Qed.

Lemma proximity_raises_never_lowers_witness :
  proximityBoost initialState == 3 # 10
  /\ storedLevel "t1" (setProximityActivation 0 "t1" 10 initialState)
     == Qmax (storedLevel "t1" initialState) (proximityLevel initialState 10).
Proof.
  split; [reflexivity |].
  apply (proximity_raises_never_lowers initialState "t1" 0 10); reflexivity.
Defined.

End ActivationClaims.

(** ** The reasoning-path overlay *)

Section ThinkingFacts.
Import Js ThinkingStore.

Implicit Types (l : list string) (x id : string) (s : ThinkingState).

Lemma indexOfFrom_absent l x (i : Z) : x ∉ l -> indexOfFrom i l x = (-1)%Z.
Proof.
  revert i. induction l as [| y l IH]; intros i Hx; [reflexivity |].
  cbn. apply not_elem_of_cons in Hx as [Hne Hx].
  rewrite bool_decide_eq_false_2 by congruence. now apply IH.
Qed.

(** [indexOf] answers the first position of an element. *)
Lemma indexOfFrom_first l x (i : Z) (n : nat) :
  l !! n = Some x -> x ∉ take n l -> indexOfFrom i l x = (i + Z.of_nat n)%Z.
Proof.
  revert i n. induction l as [| y l IH]; intros i n Hn Hfirst; [discriminate |].
  destruct n as [| n]; cbn in *.
  - injection Hn as ->. rewrite bool_decide_eq_true_2 by reflexivity. lia.
  - apply not_elem_of_cons in Hfirst as [Hne Hfirst].
    rewrite bool_decide_eq_false_2 by congruence.
    rewrite (IH (i + 1)%Z n Hn Hfirst). lia.
Qed.

Lemma indexOf_first l x (n : nat) :
  l !! n = Some x -> x ∉ take n l -> indexOf l x = Z.of_nat n.
Proof. intros Hn Hf. unfold indexOf. now rewrite (indexOfFrom_first l x 0 n). Qed.

Lemma getActivation_off_path s id : id ∉ activePath s -> getActivation id s = 0%Q.
Proof.
  intros Hid. unfold getActivation.
  destruct (negb (isThinking s) && bool_decide (length (activePath s) = 0%nat));
    [reflexivity |].
  unfold indexOf. now rewrite indexOfFrom_absent.
Qed.

(** On the path, the first check of [getActivation] never fires. *)
Lemma getActivation_on_path s id (n : nat) :
  activePath s !! n = Some id -> id ∉ take n (activePath s) ->
  getActivation id s
  = if bool_decide (Some id = synthesisId s) then
      if (Z.of_nat (length (activePath s)) - 1 <=? pathProgress s)%Z
      then 1%Q else (3 # 10)%Q
    else if (Z.of_nat n <=? pathProgress s)%Z then
      Qmax (4 # 10) (1 - inject_Z (pathProgress s - Z.of_nat n) * (15 # 100))
    else (15 # 100)%Q.
Proof.
  intros Hn Hfirst. unfold getActivation.
  rewrite (indexOf_first _ _ _ Hn Hfirst).
  assert (Hlen : length (activePath s) <> 0%nat).
  { intros E. apply lookup_lt_Some in Hn. lia. }
  rewrite (bool_decide_eq_false_2 _ Hlen), andb_false_r.
  destruct (Z.of_nat n =? -1)%Z eqn:E; [| reflexivity].
  apply Z.eqb_eq in E. lia.
Qed.

End ThinkingFacts.

Section ThinkingClaims.
Import Js ThinkingStore.

Implicit Types (id : string) (s : ThinkingState).

(** C6, as the store computes it.  With the cursor at [k]: a thought whose
    first position on the path is [n <= k], and which is not the synthesis
    thought, reports [max(0.4, 1 - (k - n) * 0.15)]; a thought ahead of the
    cursor which is not the synthesis thought reports 0.15; the synthesis
    thought reports 1 once the cursor is at the last position of the path
    and 0.3 before that; a thought that is not on the path reports 0. *)
Theorem path_activation_levels s id (n : nat) :
  activePath s !! n = Some id ->
  id ∉ take n (activePath s) ->
  let k := pathProgress s in
  let last := (Z.of_nat (length (activePath s)) - 1)%Z in
  (Some id <> synthesisId s -> (Z.of_nat n <= k)%Z ->
     getActivation id s
     = Qmax (4 # 10) (1 - inject_Z (k - Z.of_nat n) * (15 # 100)))
  /\ (Some id <> synthesisId s -> (k < Z.of_nat n)%Z ->
        getActivation id s = (15 # 100)%Q)
  /\ (Some id = synthesisId s -> (last <= k)%Z -> getActivation id s = 1%Q)
  /\ (Some id = synthesisId s -> (k < last)%Z -> getActivation id s = (3 # 10)%Q)
  /\ (forall other, other ∉ activePath s -> getActivation other s = 0%Q).
Proof.
  intros Hn Hfirst k last.
  pose proof (getActivation_on_path s id n Hn Hfirst) as E.
  fold k last in E.
  refine (conj _ (conj _ (conj _ (conj _ _)))).
  - intros Hsyn Hk. rewrite E, (bool_decide_eq_false_2 _ Hsyn).
    now rewrite (proj2 (Z.leb_le _ _) Hk).
  - intros Hsyn Hk. rewrite E, (bool_decide_eq_false_2 _ Hsyn).
    now rewrite (proj2 (Z.leb_gt _ _) Hk).
  - intros Hsyn Hk. rewrite E, (bool_decide_eq_true_2 _ Hsyn).
    now rewrite (proj2 (Z.leb_le _ _) Hk).
  - intros Hsyn Hk. rewrite E, (bool_decide_eq_true_2 _ Hsyn).
    now rewrite (proj2 (Z.leb_gt _ _) Hk).
  - intros other. apply getActivation_off_path.
Qed.

Lemma path_activation_levels_witness :
  let s := setPathProgress 1
             (startThinking 0 ["t1"; "t2"; "t9"] (Some "t9") initialState) in
  activePath s !! 0%nat = Some "t1"
  /\ ("t1" ∉ take 0 (activePath s))
  /\ getActivation "t1" s = Qmax (4 # 10) (1 - inject_Z (1 - 0) * (15 # 100))
  /\ getActivation "t2" s = Qmax (4 # 10) (1 - inject_Z (1 - 1) * (15 # 100))
  /\ getActivation "t9" s = (3 # 10)%Q.
Proof.
  intros s.
  assert (F1 : "t1" ∉ take 0 (activePath s)) by apply not_elem_of_nil.
  assert (F2 : "t2" ∉ take 1 (activePath s)).
  { cbn. rewrite not_elem_of_cons. split; [discriminate | apply not_elem_of_nil]. }
  assert (F9 : "t9" ∉ take 2 (activePath s)).
  { cbn. rewrite !not_elem_of_cons.
    split; [discriminate |]. split; [discriminate | apply not_elem_of_nil]. }
  split; [reflexivity |]. split; [exact F1 |].
  split; [apply (path_activation_levels s "t1" 0 eq_refl F1);
          [discriminate | vm_compute; discriminate] |].
  split; [apply (path_activation_levels s "t2" 1 eq_refl F2);
          [discriminate | vm_compute; discriminate] |].
  apply (path_activation_levels s "t9" 2 eq_refl F9); reflexivity.
Defined.

(** C6 as it is worded fails for the synthesis thought: it is ahead of the
    cursor until the cursor reaches the end of the path, and reports 0.3
    there, not the foreshadowing level 0.15. *)
Lemma foreshadowing_not_for_synthesis :
  let s := startThinking 0 ["t1"; "t2"; "t9"] (Some "t9") initialState in
  activePath s !! 2%nat = Some "t9"
  /\ (pathProgress s < 2)%Z
  /\ getActivation "t9" s = (3 # 10)%Q
  /\ ~ (getActivation "t9" s == 15 # 100)%Q.
Proof.
  cbn zeta. split; [reflexivity |]. split; [reflexivity |].
  split; [reflexivity |]. vm_compute. discriminate.
Qed.

End ThinkingClaims.

(** ** The timeline *)

Section TimelineClaims.
Import Js TimelineStore.
Local Open Scope Q_scope.

Implicit Types (s : TimelineState).

Lemma clamp_unit (p : Q) : 0 <= p -> p <= 1 -> Qmax 0 (Qmin 1 p) == p.
Proof.
  intros H0 H1. rewrite (Qmin_1_small p H1). apply Q.max_r, H0.
Qed.

Lemma getProgress_ratio s :
  startTime s < endTime s ->
  getProgress s = (currentTime s - startTime s) / (endTime s - startTime s).
Proof.
  intros Hlt. unfold getProgress.
  destruct (Qeq_bool (endTime s) (startTime s)) eqn:E; [| reflexivity].
  apply Qeq_bool_iff in E. lra.
Qed.

Lemma setProgress_time s (p : Q) :
  0 <= p -> p <= 1 ->
  currentTime (setProgress p s) == startTime s + (endTime s - startTime s) * p.
Proof.
  intros H0 H1. unfold setProgress. cbn.
  now rewrite (clamp_unit p H0 H1).
Qed.

(** C7.  On a timeline with [startTime < endTime]: [getProgress] is the
    fraction [(currentTime - startTime) / (endTime - startTime)];
    [setProgress p] for [p] in [0, 1] puts [currentTime] at
    [startTime + (endTime - startTime) * p] and touches nothing else, so
    that [getProgress] then answers [p].  From 1000 to 5000 with the clock
    at 3000 the progress is 1/2, and [setProgress (1/4)] puts the clock at
    2000. *)
Theorem progress_scrub_roundtrip s (p : Q) :
  startTime s < endTime s ->
  getProgress s == (currentTime s - startTime s) / (endTime s - startTime s)
  /\ (0 <= p -> p <= 1 ->
        currentTime (setProgress p s)
        == startTime s + (endTime s - startTime s) * p
        /\ startTime (setProgress p s) = startTime s
        /\ endTime (setProgress p s) = endTime s
        /\ getProgress (setProgress p s) == p)
  /\ (startTime s == 1000 -> endTime s == 5000 ->
        (currentTime s == 3000 -> getProgress s == 1 # 2)
        /\ currentTime (setProgress (1 # 4) s) == 2000).
Proof.
  intros Hlt.
  refine (conj _ (conj _ _)).
  - now rewrite (getProgress_ratio s Hlt).
  - intros H0 H1.
    pose proof (setProgress_time s p H0 H1) as Ht.
    refine (conj Ht (conj eq_refl (conj eq_refl _))).
    rewrite (getProgress_ratio (setProgress p s) Hlt).
    change (startTime (setProgress p s)) with (startTime s).
    change (endTime (setProgress p s)) with (endTime s).
    rewrite Ht. field. lra.
  - intros Hs He. split.
    + intros Hc. rewrite (getProgress_ratio s Hlt), Hs, He, Hc. reflexivity.
    + rewrite setProgress_time by lra. rewrite Hs, He. reflexivity.
Qed.

Lemma progress_scrub_roundtrip_witness :
  startTime Examples.scrubExample < endTime Examples.scrubExample
  /\ getProgress Examples.scrubExample == 1 # 2
  /\ currentTime (setProgress (1 # 4) Examples.scrubExample) == 2000.
Proof.
  split; [reflexivity |].
  pose proof (progress_scrub_roundtrip Examples.scrubExample (1 # 4) eq_refl)
    as (_ & _ & H).
  destruct (H ltac:(reflexivity) ltac:(reflexivity)) as [Hp Ht].
  split; [apply Hp; reflexivity | exact Ht].
Defined.

(** C10.  Outside timeline mode every item is shown at full opacity,
    whatever its creation time is and wherever the clock and the bounds of
    the timeline stand. *)
Theorem outside_timeline_everything_visible s (parse : string -> option Q)
    (createdAt : DateLike) :
  isActive s = false ->
  isVisible parse createdAt s = true /\ getVisibility parse createdAt s = 1.
Proof.
  intros Hoff. unfold isVisible, getVisibility. now rewrite Hoff.
Qed.

Lemma outside_timeline_everything_visible_witness :
  let s := exitTimeline 7000 Examples.scrubExample in
  isVisible (fun _ => None) (DateString "not a date") s = true
  /\ getVisibility (fun _ => None) (DateObj (Some 9000)) s = 1.
Proof.
  intros s. split.
  - apply (outside_timeline_everything_visible s (fun _ => None)
             (DateString "not a date") eq_refl).
  - apply (outside_timeline_everything_visible s (fun _ => None)
             (DateObj (Some 9000)) eq_refl).
Defined.

End TimelineClaims.

(** ** Change detection *)

Section SyncFacts.
Import MindStore DatabaseSync.
Local Open Scope Z_scope.

Variable loadedAt : Q.

Implicit Types (v prev : DbVersion) (b : Backend) (st : SyncState).

Lemma versionChanged_differs v prev :
  versionChanged v prev = true
  <-> thought_max_id v <> thought_max_id prev
      \/ connection_max_id v <> connection_max_id prev.
Proof.
  unfold versionChanged. rewrite orb_true_iff, !negb_true_iff, !Z.eqb_neq.
  reflexivity.
Qed.

Lemma versionChanged_same v prev : versionChanged v prev = false -> v = prev.
Proof.
  unfold versionChanged. rewrite orb_false_iff, !negb_false_iff, !Z.eqb_eq.
  destruct v, prev; cbn. intros [-> ->]. reflexivity.
Qed.

Lemma versionChanged_increase v prev :
  notBelow v prev -> (versionChanged v prev = true <-> strictlyIncreased v prev).
Proof.
  intros [Ht Hc]. rewrite versionChanged_differs. unfold strictlyIncreased. lia.
Qed.

(** A poll that is answered accepts the token it is answered. *)
Lemma checkForUpdates_accepts v b st :
  lastVersion (fst (checkForUpdates loadedAt true (Some v) b st)) = v.
Proof.
  unfold checkForUpdates. cbn [negb].
  destruct (versionChanged v (lastVersion st)) eqn:E.
  - destruct (useSpatialLoading (store st)); [| reflexivity].
    destruct (loadNearCamera _ _ _ _ _ _ _ _); reflexivity.
  - cbn. symmetry. now apply versionChanged_same.
Qed.

Lemma checkForUpdates_reloads v b st :
  reloads (snd (checkForUpdates loadedAt true (Some v) b st))
  = versionChanged v (lastVersion st).
Proof.
  unfold checkForUpdates. cbn [negb].
  destruct (versionChanged v (lastVersion st)) eqn:E; [| reflexivity].
  destruct (useSpatialLoading (store st)); [| reflexivity].
  destruct (loadNearCamera _ _ _ _ _ _ _ _); reflexivity.
Qed.

(** Poll by poll: the flag is the comparison with the token accepted last. *)
Lemma pollAll_lookup (polls : list (DbVersion * Backend)) st (n : nat) v b :
  polls !! n = Some (v, b) ->
  exists last,
    acceptedBefore loadedAt true polls st !! n = Some last
    /\ pollAll loadedAt true polls st !! n = Some (versionChanged v last).
Proof.
  revert st n. induction polls as [| [v0 b0] polls IH]; intros st n Hn;
    [discriminate |].
  destruct n as [| n].
  - injection Hn as -> ->. exists (lastVersion st). cbn [acceptedBefore pollAll].
    pose proof (checkForUpdates_reloads v b st) as Hr.
    destruct (checkForUpdates loadedAt true (Some v) b st) as [st' calls].
    cbn in Hr. rewrite Hr. split; reflexivity.
  - cbn in Hn. cbn [acceptedBefore pollAll].
    destruct (checkForUpdates loadedAt true (Some v0) b0 st) as [st' calls] eqn:E.
    cbn [fst]. cbn [lookup list_lookup]. apply (IH st' n Hn).
Qed.

(** The token accepted before poll [n + 1] is the token of poll [n]. *)
Lemma acceptedBefore_previous (polls : list (DbVersion * Backend)) st (n : nat) v b :
  polls !! n = Some (v, b) -> (S n < length polls)%nat ->
  acceptedBefore loadedAt true polls st !! S n = Some v.
Proof.
  revert st n. induction polls as [| [v0 b0] polls IH]; intros st n Hn Hlen;
    [discriminate |].
  destruct n as [| n].
  - injection Hn as -> ->. cbn [acceptedBefore].
    destruct polls as [| [v1 b1] polls]; [cbn in Hlen; lia |].
    cbn [acceptedBefore].
    change (Some (lastVersion (fst (checkForUpdates loadedAt true (Some v) b st)))
            = Some v).
    f_equal. apply checkForUpdates_accepts.
  - cbn in Hn. cbn [acceptedBefore]. cbn in Hlen.
    apply (IH _ n Hn). lia.
Qed.

End SyncFacts.

Section SyncClaims.
Import MindStore DatabaseSync.
Local Open Scope Z_scope.

Implicit Types (v prev : DbVersion) (b : Backend) (st : SyncState).

(** C1, as the hook decides it.  Along any sequence of answered polls, the
    token accepted last before a poll is the token of the poll before it
    (the stored one for the first poll), and the poll triggers a reload if
    and only if a component of its token differs from that token, upwards
    or downwards.  For a token none of whose components is below the
    accepted one, this is: if and only if a component strictly increased. *)
Theorem reload_iff_token_differs (loadedAt : Q)
    (polls : list (DbVersion * Backend)) st (n : nat) v b :
  polls !! n = Some (v, b) ->
  exists last,
    acceptedBefore loadedAt true polls st !! n = Some last
    /\ match n with
       | O => last = lastVersion st
       | S m => exists b', polls !! m = Some (last, b')
       end
    /\ pollAll loadedAt true polls st !! n = Some (versionChanged v last)
    /\ (versionChanged v last = true
        <-> thought_max_id v <> thought_max_id last
            \/ connection_max_id v <> connection_max_id last)
    /\ (notBelow v last ->
          (versionChanged v last = true <-> strictlyIncreased v last)).
Proof.
  intros Hn.
  destruct (pollAll_lookup loadedAt polls st n v b Hn) as (last & Hacc & Hflag).
  exists last.
  refine (conj Hacc (conj _ (conj Hflag (conj _ _)))).
  - destruct n as [| m].
    + destruct polls as [| [v0 b0] polls]; [discriminate |].
      cbn in Hacc. congruence.
    + assert (Hm : (m < length polls)%nat)
        by (apply lookup_lt_Some in Hn; lia).
      destruct (lookup_lt_is_Some_2 polls m Hm) as [[v' b'] Hv'].
      exists b'. rewrite Hv'. f_equal. f_equal.
      pose proof (acceptedBefore_previous loadedAt polls st m v' b' Hv') as Hp.
      rewrite Hp in Hacc; [congruence |].
      apply lookup_lt_Some in Hn. exact Hn.
  - apply versionChanged_differs.
  - apply versionChanged_increase.
Qed.

Lemma reload_iff_token_differs_witness :
  let polls := [(Examples.token 5 5, Examples.offline);
                (Examples.token 5 5, Examples.offline);
                (Examples.token 5 6, Examples.offline)] in
  exists last,
    acceptedBefore 0 true polls Examples.freshSync !! 2%nat = Some last
    /\ pollAll 0 true polls Examples.freshSync !! 2%nat
       = Some (versionChanged (Examples.token 5 6) last).
Proof.
  intros polls.
  destruct (reload_iff_token_differs 0 polls Examples.freshSync 2
              (Examples.token 5 6) Examples.offline eq_refl)
    as (last & Hacc & _ & Hflag & _).
  exists last. split; [exact Hacc | exact Hflag].
Defined.

(** C1 as it is worded fails when a component of the token goes down: the
    second poll below is answered (4, 5) after (5, 5) was accepted; no
    component increased, and the hook reloads. *)
Lemma reload_on_decreased_token :
  let polls := [(Examples.token 5 5, Examples.offline);
                (Examples.token 4 5, Examples.offline)] in
  acceptedBefore 0 true polls Examples.freshSync !! 1%nat
  = Some (Examples.token 5 5)
  /\ pollAll 0 true polls Examples.freshSync !! 1%nat = Some true
  /\ ~ strictlyIncreased (Examples.token 4 5) (Examples.token 5 5).
Proof.
  cbn zeta. split; [reflexivity |]. split; [reflexivity |].
  unfold strictlyIncreased. cbn. lia.
Qed.

End SyncClaims.

(** ** Loading: full or windowed *)

Section LoadClaims.
Import MindStore.

Implicit Types (b : Backend) (s : MindState).

Lemma windowQuery_thoughts b (x y z r : Q) (l : Z) ts cs :
  windowQuery b x y z r l = Some (ts, cs) ->
  get_thoughts_near b x y z r l = Some ts.
Proof.
  unfold windowQuery. destruct (get_thoughts_near b x y z r l) as [ts' |];
    [| discriminate].
  destruct (bool_decide _).
  - now intros [= -> _].
  - destruct (get_connections_for_thoughts b _); [| discriminate].
    now intros [= -> _].
Qed.

(** C2.  With [n] the answer of [get_thought_count]: for [n <= 500] the
    loader fetches the whole graph (what [get_all_thoughts] and
    [get_all_connections] answer becomes the store, in full mode); for
    [n > 500] it switches the store to spatial loading and fetches nothing,
    and a load near the camera with its default arguments is the spatial
    query with radius 80 and cap 300: when the backing store honours the
    cap, the store holds at most 300 thoughts after a windowed load (the
    only other outcome is the fall-back to a full load when the query
    rejects). *)
Theorem load_mode_by_threshold (loadedAt : Q) b s (n : Z) :
  get_thought_count b = Some n ->
  let s' := loadFromDatabase loadedAt true b s in
  ((n <= 500)%Z ->
     spec_decide n SPATIAL_THRESHOLD = Full
     /\ forall ts cs,
          get_all_thoughts b = Some ts -> get_all_connections b = Some cs ->
          useSpatialLoading s' = false /\ totalThoughtCount s' = n
          /\ (ts <> [] -> thoughts s' = ts /\ connections s' = cs))
  /\ ((500 < n)%Z ->
        spec_decide n SPATIAL_THRESHOLD
        = Windowed DEFAULT_SPATIAL_RADIUS DEFAULT_SPATIAL_LIMIT
        /\ DEFAULT_SPATIAL_RADIUS = 80%Q /\ DEFAULT_SPATIAL_LIMIT = 300%Z
        /\ useSpatialLoading s' = true /\ totalThoughtCount s' = n
        /\ thoughts s' = thoughts s /\ connections s' = connections s
        /\ forall b' (x y z : Q) s1 s2,
             honoursLimit b' ->
             loadNearCamera true b' x y z None None s1 = Some s2 ->
             (exists cs, windowQuery b' x y z 80 300 = Some (thoughts s2, cs)
                         /\ connections s2 = cs
                         /\ (length (thoughts s2) <= 300)%nat)
             \/ (windowQuery b' x y z 80 300 = None
                 /\ useSpatialLoading s2 = false
                 /\ get_all_thoughts b' = Some (thoughts s2))).
Proof.
  intros Hn s'. unfold s', loadFromDatabase, shouldUseSpatial, spec_decide,
    SPATIAL_THRESHOLD. rewrite Hn. cbn [default from_option id].
  split.
  - intros Hle. rewrite (proj2 (Z.leb_le n 500) Hle).
    rewrite (proj2 (Z.ltb_ge 500 n) Hle).
    split; [reflexivity |]. intros ts cs -> ->.
    destruct ts as [| t ts].
    + cbn. split; [reflexivity |]. split; [reflexivity |]. now intros [].
    + cbn. repeat split; reflexivity.
  - intros Hgt. rewrite (proj2 (Z.leb_gt n 500) Hgt).
    rewrite (proj2 (Z.ltb_lt 500 n) Hgt). cbn.
    do 7 (split; [reflexivity |]).
    intros b' x y z s1 s2 Hcap. unfold loadNearCamera. cbn [negb default from_option id].
    change DEFAULT_SPATIAL_RADIUS with 80%Q.
    change DEFAULT_SPATIAL_LIMIT with 300%Z.
    destruct (windowQuery b' x y z 80 300) as [[ts cs] |] eqn:Hw.
    + intros [= <-]. left. exists cs. cbn.
      split; [reflexivity |]. split; [reflexivity |].
      apply windowQuery_thoughts in Hw. apply Hcap in Hw. lia.
    + destruct (get_all_thoughts b') as [ts |]; [| discriminate].
      destruct (get_all_connections b') as [cs |]; [| discriminate].
      intros [= <-]. right. cbn. repeat split; reflexivity.
Qed.

Lemma crowded_honoursLimit : honoursLimit Examples.crowded.
Proof.
  intros x y z r l ts. cbn.
  destruct (l <? 0)%Z eqn:E; [discriminate |].
  apply Z.ltb_ge in E. intros [= <-]. rewrite length_take. cbn. lia.
Qed.

Lemma load_mode_by_threshold_witness :
  let s' := loadFromDatabase 0 true Examples.crowded initialState in
  get_thought_count Examples.crowded = Some 600%Z
  /\ honoursLimit Examples.crowded
  /\ useSpatialLoading s' = true
  /\ exists s2,
       loadNearCamera true Examples.crowded 0 0 50 None None s' = Some s2
       /\ (length (thoughts s2) <= 300)%nat.
Proof.
  intros s'.
  split; [reflexivity |]. split; [exact crowded_honoursLimit |].
  destruct (load_mode_by_threshold 0 Examples.crowded initialState 600 eq_refl)
    as [_ Hbig].
  destruct (Hbig ltac:(reflexivity)) as (_ & _ & _ & Hflag & _ & _ & _ & Hnear).
  split; [exact Hflag |].
  eexists. split; [reflexivity |].
  destruct (Hnear Examples.crowded 0%Q 0%Q 50%Q s' _ crowded_honoursLimit eq_refl)
    as [(cs & _ & _ & Hlen) | (Hnone & _)].
  - exact Hlen.
  - discriminate Hnone.
Defined.

End LoadClaims.

(** ** What the scene mounts *)

Section RenderClaims.
Import MindStore MindSpace.

Variable parse : string -> option Q.
Variable timeline : TimelineStore.TimelineState.

Implicit Types (ts : list Thought) (cs : list Connection) (c : Connection).

Lemma findThought_Some (wanted : string) ts t :
  findThought wanted ts = Some t -> t ∈ ts /\ thought_id t = wanted.
Proof.
  unfold findThought. intros H. apply List.find_some in H as [Hin Hid].
  split; [now apply list_elem_of_In |].
  now apply bool_decide_eq_true_1 in Hid.
Qed.

Lemma findThought_None (wanted : string) ts :
  findThought wanted ts = None <-> wanted ∉ (thought_id <$> ts).
Proof.
  unfold findThought. split.
  - intros H Hin. apply list_elem_of_fmap in Hin as (t & -> & Ht).
    apply list_elem_of_In in Ht.
    pose proof (List.find_none _ _ H t Ht) as Hf.
    now apply bool_decide_eq_false_1 in Hf.
  - intros Hnot. destruct (List.find _ ts) as [t |] eqn:E; [| reflexivity].
    apply List.find_some in E as [Hin Hid].
    apply bool_decide_eq_true_1 in Hid. exfalso. apply Hnot.
    apply list_elem_of_fmap. exists t. split; [now symmetry |].
    now apply list_elem_of_In.
Qed.

Lemma visibleConnections_subset ts cs c :
  c ∈ visibleConnections parse timeline ts cs -> c ∈ cs.
Proof.
  unfold visibleConnections. destruct (negb _); [trivial |].
  rewrite !list_elem_of_In, List.filter_In. tauto.
Qed.

Lemma renderConnection_Some ts c a :
  renderConnection ts c = Some a ->
  connectionId a = connection_id c
  /\ fromThoughtId a = fromThought c /\ toThoughtId a = toThought c
  /\ exists fromT toT,
       fromT ∈ ts /\ thought_id fromT = fromThought c
       /\ toT ∈ ts /\ thought_id toT = toThought c
       /\ axonStart a = position fromT /\ axonEnd a = position toT.
Proof.
  unfold renderConnection.
  destruct (findThought (fromThought c) ts) as [fromT |] eqn:Hf; [| discriminate].
  destruct (findThought (toThought c) ts) as [toT |] eqn:Ht; [| discriminate].
  intros [= <-]. cbn. do 3 (split; [reflexivity |]).
  apply findThought_Some in Hf as [? ?]. apply findThought_Some in Ht as [? ?].
  exists fromT, toT. repeat split; assumption.
Qed.

Lemma mountedAxons_elem ts cs a :
  a ∈ mountedAxons parse timeline ts cs
  <-> exists c, c ∈ visibleConnections parse timeline ts cs
                /\ renderConnection ts c = Some a.
Proof.
  unfold mountedAxons, renderAxons. rewrite list_elem_of_omap. split.
  - intros (o & Ho & Eo). cbn in Eo. subst o.
    apply list_elem_of_fmap in Ho as (c & E & Hc). eauto.
  - intros (c & Hc & E). exists (Some a). split; [| reflexivity].
    apply list_elem_of_fmap. eauto.
Qed.

(** C5.  Every connection that the scene mounts comes from a connection of
    the store both of whose endpoints are thoughts of the store; a
    connection one of whose endpoints is missing renders as [null] and is
    the source of no mounted connection.  (The functions are total: no
    input makes them fail.)  Outside timeline mode nothing else is dropped.
    In particular this holds of the snapshot that a load near the camera
    leaves in the store. *)
Theorem mounted_connections_have_endpoints ts cs :
  (forall a, a ∈ mountedAxons parse timeline ts cs ->
     fromThoughtId a ∈ (thought_id <$> ts)
     /\ toThoughtId a ∈ (thought_id <$> ts)
     /\ exists c, c ∈ cs /\ renderConnection ts c = Some a)
  /\ (forall c,
        fromThought c ∉ (thought_id <$> ts) \/ toThought c ∉ (thought_id <$> ts) ->
        renderConnection ts c = None
        /\ forall a, a ∈ mountedAxons parse timeline ts cs ->
                     renderConnection ts c <> Some a)
  /\ (isTimeline timeline = false ->
        forall c, c ∈ cs ->
          fromThought c ∈ (thought_id <$> ts) -> toThought c ∈ (thought_id <$> ts) ->
          exists a, a ∈ mountedAxons parse timeline ts cs
                    /\ renderConnection ts c = Some a)
  /\ (forall b (x y z : Q) radius limit s1 s2,
        loadNearCamera true b x y z radius limit s1 = Some s2 ->
        forall a,
          a ∈ mountedAxons parse timeline (thoughts s2) (connections s2) ->
          fromThoughtId a ∈ (thought_id <$> thoughts s2)
          /\ toThoughtId a ∈ (thought_id <$> thoughts s2)).
Proof.
  assert (Hboth : forall ts' cs' a,
            a ∈ mountedAxons parse timeline ts' cs' ->
            fromThoughtId a ∈ (thought_id <$> ts')
            /\ toThoughtId a ∈ (thought_id <$> ts')).
  { intros ts' cs' a Ha. apply mountedAxons_elem in Ha as (c & Hc & E).
    pose proof (renderConnection_Some ts' c a E)
      as (_ & Hf & Ht & fromT & toT & Hfin & Hfid & Htin & Htid & _).
    split.
    - rewrite Hf, <- Hfid. apply list_elem_of_fmap. eauto.
    - rewrite Ht, <- Htid. apply list_elem_of_fmap. eauto. }
  refine (conj _ (conj _ (conj _ _)));
    [| | | intros b x y z radius limit s1 s2 _ a Ha; exact (Hboth _ _ a Ha)].
  - intros a Ha. apply mountedAxons_elem in Ha as (c & Hc & E).
    pose proof (renderConnection_Some ts c a E)
      as (_ & Hf & Ht & fromT & toT & Hfin & Hfid & Htin & Htid & _).
    refine (conj _ (conj _ _)).
    + rewrite Hf, <- Hfid. apply list_elem_of_fmap. eauto.
    + rewrite Ht, <- Htid. apply list_elem_of_fmap. eauto.
    + exists c. split; [now apply visibleConnections_subset in Hc | exact E].
  - intros c Hmiss.
    assert (Hnone : renderConnection ts c = None).
    { unfold renderConnection. destruct Hmiss as [Hm | Hm];
        apply findThought_None in Hm; rewrite Hm; [reflexivity |].
      now destruct (findThought (fromThought c) ts). }
    split; [exact Hnone |]. intros a _. rewrite Hnone. discriminate.
  - intros Hoff c Hc Hfrom Hto.
    destruct (renderConnection ts c) as [a |] eqn:E.
    + exists a. split; [| reflexivity]. apply mountedAxons_elem. exists c.
      split; [| exact E]. unfold visibleConnections. now rewrite Hoff.
    + exfalso. unfold renderConnection in E.
      destruct (findThought (fromThought c) ts) eqn:Hf.
      * destruct (findThought (toThought c) ts) eqn:Ht; [discriminate |].
        now apply findThought_None in Ht.
      * now apply findThought_None in Hf.
Qed.

End RenderClaims.

(** ** The reasoning path *)

Section PathFacts.
Import MindStore.

Variable newId : string.
Variable ts : list Thought.

Implicit Types (c d : Connection) (l picked : list Connection)
  (path : list string).

Lemma insertByStrength_perm c l : insertByStrength c l ≡ₚ c :: l.
Proof.
  induction l as [| d l IH]; cbn; [reflexivity |].
  destruct (Qle_bool (strength d) (strength c)); [reflexivity |].
  rewrite IH. apply Permutation_swap.
Qed.

Lemma sortByStrength_perm l : sortByStrength l ≡ₚ l.
Proof.
  induction l as [| c l IH]; cbn; [reflexivity |].
  fold (sortByStrength l). now rewrite insertByStrength_perm, IH.
Qed.

Lemma stronger_trans a c d : stronger a c -> stronger c d -> stronger a d.
Proof. unfold stronger. intros H1 H2. exact (Qle_trans _ _ _ H2 H1). Qed.

Lemma insertByStrength_sorted c l :
  StronglySorted stronger l -> StronglySorted stronger (insertByStrength c l).
Proof.
  induction l as [| d l IH]; cbn; intros Hs.
  - constructor; [constructor | constructor].
  - apply StronglySorted_inv in Hs as [Hl Hd].
    destruct (Qle_bool (strength d) (strength c)) eqn:E.
    + apply Qle_bool_iff in E.
      constructor; [constructor; assumption |].
      constructor; [exact E |].
      eapply Forall_impl; [exact Hd |].
      intros r Hr. exact (stronger_trans c d r E Hr).
    + constructor; [now apply IH |].
      rewrite insertByStrength_perm. constructor; [| exact Hd].
      unfold stronger.
      destruct (Qlt_le_dec (strength c) (strength d)) as [Hlt | Hle].
      * now apply Qlt_le_weak.
      * apply Qle_bool_iff in Hle. congruence.
Qed.

Lemma sortByStrength_sorted l : StronglySorted stronger (sortByStrength l).
Proof.
  induction l as [| c l IH]; cbn; [constructor |].
  now apply insertByStrength_sorted.
Qed.

Lemma take_min_length {A} (l : list A) (n : nat) :
  take (Nat.min (length l) n) l = take n l.
Proof.
  destruct (Nat.le_ge_cases (length l) n) as [H | H].
  - rewrite Nat.min_l by exact H. now rewrite !take_ge by lia.
  - now rewrite Nat.min_r by exact H.
Qed.

(** The loop appends to the path the ids of some of the connections it
    visits, in the order of the visit, each id once, each of a stored
    thought. *)
Lemma pathStep_fold l path :
  exists picked,
    foldl (pathStep newId ts) path l = path ++ (connectedIdOf newId <$> picked)
    /\ picked `sublist_of` l
    /\ (NoDup path -> NoDup (path ++ (connectedIdOf newId <$> picked)))
    /\ Forall (fun c => connectedIdOf newId c ∈ (thought_id <$> ts)) picked.
Proof.
  revert path. induction l as [| c l IH]; intros path.
  - exists []. cbn. rewrite app_nil_r.
    repeat split; [constructor | trivial | constructor].
  - cbn [foldl]. unfold pathStep at 2.
    destruct (findThought (connectedIdOf newId c) ts) as [t |] eqn:Hfind.
    + destruct (bool_decide (connectedIdOf newId c ∈ path)) eqn:Hin.
      * destruct (IH path) as (picked & E & Hsub & Hnd & Hall).
        exists picked. repeat split; try assumption. now apply sublist_cons.
      * apply bool_decide_eq_false_1 in Hin.
        destruct (IH (path ++ [connectedIdOf newId c]))
          as (picked & E & Hsub & Hnd & Hall).
        exists (c :: picked). rewrite E. cbn [fmap list_fmap].
        rewrite <- !app_assoc. cbn [app].
        refine (conj eq_refl (conj _ (conj _ _))).
        -- now apply sublist_skip.
        -- intros Hpath.
           rewrite <- app_assoc in Hnd. cbn [app] in Hnd. apply Hnd.
           apply NoDup_app. repeat split; [exact Hpath | | apply NoDup_singleton].
           intros x Hx Hx'. apply list_elem_of_singleton in Hx'. now subst x.
        -- constructor; [| exact Hall].
           apply findThought_Some in Hfind as [Ht Hid].
           apply list_elem_of_fmap. exists t. split; [now symmetry | exact Ht].
    + destruct (IH path) as (picked & E & Hsub & Hnd & Hall).
      exists picked. repeat split; try assumption. now apply sublist_cons.
Qed.

(** When the connections lead to different stored thoughts, none of them on
    the path yet, the loop appends them all. *)
Lemma pathStep_fold_all l path :
  NoDup (path ++ (connectedIdOf newId <$> l)) ->
  Forall (fun c => connectedIdOf newId c ∈ (thought_id <$> ts)) l ->
  foldl (pathStep newId ts) path l = path ++ (connectedIdOf newId <$> l).
Proof.
  revert path. induction l as [| c l IH]; intros path Hnd Hall.
  - cbn. now rewrite app_nil_r.
  - cbn [foldl]. apply Forall_cons in Hall as [Hc Hall].
    cbn [fmap list_fmap] in Hnd |- *.
    assert (Hstep : pathStep newId ts path c = path ++ [connectedIdOf newId c]).
    { unfold pathStep.
      destruct (findThought (connectedIdOf newId c) ts) eqn:Hfind.
      - rewrite bool_decide_eq_false_2; [reflexivity |].
        intros Hin. apply NoDup_app in Hnd as (_ & Hdisj & _).
        apply (Hdisj _ Hin). apply list_elem_of_here.
      - apply findThought_None in Hfind. contradiction. }
    rewrite Hstep, IH; [now rewrite <- app_assoc | | exact Hall].
    now rewrite <- app_assoc.
Qed.

Lemma connectedIdOf_new c :
  connectedIdOf newId c = newId -> touches newId c -> selfConnection newId c.
Proof.
  unfold connectedIdOf, touches, selfConnection.
  destruct (bool_decide (fromThought c = newId)) eqn:E.
  - apply bool_decide_eq_true_1 in E. intros -> _. now split.
  - apply bool_decide_eq_false_1 in E. intros Hf _. contradiction.
Qed.

End PathFacts.

Section PathClaims.
Import MindStore.

Implicit Types (newId : string) (ts : list Thought) (cs : list Connection).

Lemma findReasoningPath_chain newId ts cs :
  findReasoningPath newId ts cs = chainOf newId ts cs ++ [newId].
Proof.
  unfold findReasoningPath.
  destruct (bool_decide (length (connectedToNew newId cs) = 0%nat)) eqn:E;
    [| reflexivity].
  apply bool_decide_eq_true_1, nil_length_inv in E.
  unfold chainOf. now rewrite E.
Qed.

Lemma chainOf_fold newId ts cs :
  chainOf newId ts cs
  = foldl (pathStep newId ts) []
      (take (maxPathLength - 1) (sortByStrength (connectedToNew newId cs))).
Proof. unfold chainOf. now rewrite take_min_length. Qed.

(** C4, as the function derives the path.  The path ends with the new
    thought.  Before it come ids of thoughts connected to the new thought:
    they are taken from the (at most [maxPathLength - 1] = 3) strongest
    connections touching the new thought, listed in descending order of
    strength, each a stored thought, none twice.  The path has at least 1
    and at most [maxPathLength] entries; when the connections touching the
    new thought lead to different stored thoughts, their number being
    [connectedCount], the path lists the 3 strongest of them and has
    [min(connectedCount, maxPathLength - 1) + 1] entries.  The whole path is
    free of duplicates when the new thought is not stored yet or has no
    connection to itself.  A new thought "t9" with connections of strength
    0.9 to "t1" and 0.3 to "t2" gets the path ["t1", "t2", "t9"], and
    [addThought] starts the traversal of it with synthesis id "t9". *)
Theorem reasoning_path_shape newId ts cs :
  let path := findReasoningPath newId ts cs in
  let touching := connectedToNew newId cs in
  let strongest := take (maxPathLength - 1) (sortByStrength touching) in
  last path = Some newId
  /\ (1 <= length path <= maxPathLength)%nat
  /\ (exists picked,
        path = (connectedIdOf newId <$> picked) ++ [newId]
        /\ picked `sublist_of` strongest
        /\ sortByStrength touching ≡ₚ touching
        /\ StronglySorted stronger (sortByStrength touching)
        /\ StronglySorted stronger picked
        /\ NoDup (connectedIdOf newId <$> picked)
        /\ Forall (fun c => connectedIdOf newId c ∈ (thought_id <$> ts)
                            /\ c ∈ cs /\ touches newId c) picked)
  /\ (newId ∉ (thought_id <$> ts)
      \/ (forall c, c ∈ cs -> ~ selfConnection newId c) ->
      NoDup path)
  /\ (NoDup (connectedIdOf newId <$> touching) ->
      Forall (fun c => connectedIdOf newId c ∈ (thought_id <$> ts)) touching ->
      path = (connectedIdOf newId <$> strongest) ++ [newId]
      /\ length path
         = (Nat.min (length touching) (maxPathLength - 1) + 1)%nat)
  /\ (let w := addThought 0 (Examples.dot "t9" 9) Examples.arrival in
      findReasoningPath "t9" (thoughts (mind Examples.arrival))
        (connections (mind Examples.arrival)) = ["t1"; "t2"; "t9"]
      /\ ThinkingStore.activePath (thinking w) = ["t1"; "t2"; "t9"]
      /\ ThinkingStore.synthesisId (thinking w) = Some "t9").
Proof.
  intros path touching strongest.
  assert (Epath : path = chainOf newId ts cs ++ [newId])
    by apply findReasoningPath_chain.
  pose proof (chainOf_fold newId ts cs) as Echain.
  fold touching strongest in Echain.
  destruct (pathStep_fold newId ts strongest [])
    as (picked & Efold & Hsub & Hnd & Hall).
  rewrite <- Echain in Efold. cbn [app] in Efold.
  specialize (Hnd (NoDup_nil_2)). cbn [app] in Hnd.
  pose proof (sortByStrength_perm touching) as Hperm.
  pose proof (sortByStrength_sorted touching) as Hsorted.
  assert (Hin : forall c, c ∈ picked -> c ∈ cs /\ touches newId c).
  { intros c Hc.
    assert (Hs : c ∈ sortByStrength touching).
    { eapply elem_of_sublist; [| apply sublist_take].
      eapply elem_of_sublist; [exact Hc | exact Hsub]. }
    rewrite Hperm in Hs. unfold touching, connectedToNew in Hs.
    apply list_elem_of_filter in Hs. tauto. }
  assert (Hlen : (length picked <= maxPathLength - 1)%nat).
  { apply sublist_length in Hsub. unfold strongest in Hsub.
    rewrite length_take in Hsub. lia. }
  refine (conj _ (conj _ (conj _ (conj _ (conj _ _))))).
  - rewrite Epath. apply last_snoc.
  - rewrite Epath, Efold, length_app, length_fmap.
    unfold maxPathLength in *. cbn [length]. lia.
  - exists picked. rewrite Epath, Efold.
    refine (conj eq_refl (conj Hsub (conj Hperm (conj Hsorted (conj _ (conj Hnd _)))))).
    + assert (Hsub' : picked `sublist_of` sortByStrength touching)
        by (etransitivity; [exact Hsub | apply sublist_take]).
      clear -Hsub' Hsorted. induction Hsub' as [| c l1 l2 Hs IH | c l1 l2 Hs IH].
      * constructor.
      * apply StronglySorted_inv in Hsorted as [Hl Hc].
        constructor; [now apply IH |].
        apply Forall_forall. intros d Hd.
        rewrite Forall_forall in Hc. apply Hc. eapply elem_of_sublist; eassumption.
      * apply StronglySorted_inv in Hsorted as [Hl _]. now apply IH.
    + apply Forall_forall. intros c Hc. split.
      * rewrite Forall_forall in Hall. now apply Hall.
      * now apply Hin.
  - intros Hfree. rewrite Epath, Efold. apply NoDup_app.
    refine (conj Hnd (conj _ (NoDup_singleton _))).
    intros x Hx Hx'. apply list_elem_of_singleton in Hx'. subst x.
    apply list_elem_of_fmap in Hx as (c & Hid & Hc).
    destruct Hfree as [Hnew | Hself].
    + rewrite Forall_forall in Hall. apply Hnew. rewrite Hid. now apply Hall.
    + destruct (Hin c Hc) as [Hcs Htouch].
      apply (Hself c Hcs). now apply connectedIdOf_new.
  - intros Hdistinct Hstored.
    assert (Hchain : chainOf newId ts cs = connectedIdOf newId <$> strongest).
    { rewrite Echain.
      rewrite (pathStep_fold_all newId ts strongest []); [reflexivity | |].
      - cbn [app].
        apply (sublist_NoDup _ (connectedIdOf newId <$> sortByStrength touching)).
        + now rewrite Hperm.
        + apply fmap_sublist, sublist_take.
      - apply Forall_forall. intros c Hc.
        rewrite Forall_forall in Hstored. apply Hstored.
        rewrite <- Hperm. eapply elem_of_sublist; [exact Hc | apply sublist_take]. }
    rewrite Epath, Hchain. split; [reflexivity |].
    rewrite length_app, length_fmap. unfold strongest.
    rewrite length_take, (Permutation_length Hperm).
    unfold maxPathLength. cbn [length]. lia.
  - cbn zeta. repeat split; vm_compute; reflexivity.
Qed.

(** C4 as it is worded fails on its own example: two connected thoughts give
    a path of 3 entries, which is not min(2, 4).  And the path has a
    duplicate when a stored thought is connected to itself. *)
Lemma reasoning_path_length_off_by_one :
  let ts := thoughts (mind Examples.arrival) in
  let cs := connections (mind Examples.arrival) in
  length (connectedToNew "t9" cs) = 2%nat
  /\ findReasoningPath "t9" ts cs = ["t1"; "t2"; "t9"]
  /\ length (findReasoningPath "t9" ts cs) <> Nat.min 2 maxPathLength
  /\ findReasoningPath "t9" (thoughts Examples.selfLinked)
       (connections Examples.selfLinked) = ["t9"; "t9"]
  /\ ~ NoDup (findReasoningPath "t9" (thoughts Examples.selfLinked)
                (connections Examples.selfLinked)).
Proof.
  cbn zeta.
  assert (E : findReasoningPath "t9" (thoughts Examples.selfLinked)
                (connections Examples.selfLinked) = ["t9"; "t9"])
    by (vm_compute; reflexivity).
  split; [vm_compute; reflexivity |]. split; [vm_compute; reflexivity |].
  split; [vm_compute; discriminate |]. split; [exact E |].
  rewrite E. intros Hnd. apply NoDup_cons in Hnd as [Hnot _].
  apply Hnot. apply list_elem_of_here.
Qed.

End PathClaims.

(** * Further properties of the stores *)

(** ** Batches, the sweep and the range of the levels *)

Section ActivationMore.
Import Js ActivationStore.
Local Open Scope Q_scope.

Implicit Types (s : ActivationState) (id : string)
  (m : gmap string NodeActivation).

Lemma staggered_absent (now glow lvl : Q) (ids : list string) (k : Z) m id :
  id ∉ ids -> staggered now glow lvl ids k m !! id = m !! id.
Proof.
  revert k m. induction ids as [| j ids IH]; intros k m Hid; [reflexivity |].
  apply not_elem_of_cons in Hid as [Hne Hid]. cbn [staggered].
  rewrite IH by exact Hid. now apply lookup_insert_ne.
Qed.

Lemma staggered_last (now glow lvl : Q) (ids : list string) (k : Z) m id
    (i : nat) :
  ids !! i = Some id -> id ∉ drop (S i) ids ->
  staggered now glow lvl ids k m !! id
  = Some {| thoughtId := id; level := lvl;
            lastActivatedAt := now + inject_Z (k + Z.of_nat i) * 200;
            decayStartsAt := now + inject_Z (k + Z.of_nat i) * 200 + glow |}.
Proof.
  revert k m i. induction ids as [| j ids IH]; intros k m i Hi Hlast;
    [discriminate |].
  destruct i as [| i]; cbn [staggered].
  - injection Hi as ->. cbn in Hlast. rewrite drop_0 in Hlast.
    rewrite staggered_absent by exact Hlast.
    rewrite lookup_insert_eq. cbn [Z.of_nat]. now rewrite Z.add_0_r.
  - cbn in Hi, Hlast. rewrite (IH (k + 1)%Z _ i Hi Hlast).
    replace (k + 1 + Z.of_nat i)%Z with (k + Z.of_nat (S i))%Z by lia.
    reflexivity.
Qed.

(** X1.  In a batch, the thought at position [i] (its last position, if it is
    listed more than once) starts its glow [i * 200] ms after the call, with
    the level [min(1, intensity)]; thoughts outside the batch keep their
    records. *)
Theorem activateNodes_staggers s (now : Q) (ids : list string) (x : option Q)
    id (i : nat) :
  ids !! i = Some id -> id ∉ drop (S i) ids ->
  activations (activateNodes now ids x s) !! id
  = Some {| thoughtId := id;
            level := Qmin 1 (intensityOr1 x);
            lastActivatedAt := now + inject_Z (Z.of_nat i) * 200;
            decayStartsAt := now + inject_Z (Z.of_nat i) * 200 + glowDuration s |}
  /\ forall other, other ∉ ids ->
       activations (activateNodes now ids x s) !! other = activations s !! other.
Proof.
  intros Hi Hlast. unfold activateNodes. cbn [activations setActivations]. split.
  - now rewrite (staggered_last _ _ _ ids 0 _ id i Hi Hlast).
  - intros other Ho. now apply staggered_absent.
Qed.

Lemma activateNodes_staggers_witness :
  let s := activateNodes 1000 ["a"; "b"; "a"] (Some (6 # 10)) initialState in
  (lastActivatedAt <$> activations s !! "a") = Some (1000 + inject_Z 2 * 200)
  /\ (lastActivatedAt <$> activations s !! "b") = Some (1000 + inject_Z 1 * 200).
Proof.
  intros s.
  assert (Ha : "a" ∉ drop 3 ["a"; "b"; "a"]) by apply not_elem_of_nil.
  assert (Hb : "b" ∉ drop 2 ["a"; "b"; "a"]).
  { cbn. rewrite not_elem_of_cons. split; [discriminate | apply not_elem_of_nil]. }
  destruct (activateNodes_staggers initialState 1000 ["a"; "b"; "a"]
              (Some (6 # 10)) "a" 2 eq_refl Ha) as [Ea _].
  destruct (activateNodes_staggers initialState 1000 ["a"; "b"; "a"]
              (Some (6 # 10)) "b" 1 eq_refl Hb) as [Eb _].
  unfold s. rewrite Ea, Eb. split; reflexivity.
Defined.

Lemma tick_lookup s (now : Q) id :
  activations (tick now s) !! id = activations s !! id
  \/ (activations (tick now s) !! id = None
      /\ exists a, activations s !! id = Some a
                   /\ decayDuration s <= now - decayStartsAt a).
Proof.
  unfold tick. destruct (existsb _ _); [| now left]. cbn [activations setActivations].
  destruct (activations s !! id) as [a |] eqn:Ha.
  - destruct (alive now (decayDuration s) a) eqn:Halive.
    + left. apply map_lookup_filter_Some. now split.
    + right. split.
      * apply map_lookup_filter_None. right. intros a' Ha'. cbn.
        rewrite Ha in Ha'. injection Ha' as <-. congruence.
      * exists a. split; [reflexivity |]. now apply Qltb_false.
  - left. apply map_lookup_filter_None. left. exact Ha.
Qed.

(** X2.  The sweep is invisible to a reader of the same instant: the records it
    removes already read 0. *)
Theorem tick_keeps_readings s (now : Q) id :
  0 < decayDuration s ->
  getActivation now id (tick now s) == getActivation now id s.
Proof.
  intros HD.
  assert (Hd : decayDuration (tick now s) = decayDuration s)
    by (unfold tick; now destruct (existsb _ _)).
  destruct (tick_lookup s now id) as [E | (E & a & Ha & Hover)].
  - unfold getActivation. now rewrite E, Hd.
  - rewrite (getActivation_unknown _ now id E).
    symmetry. apply (decay_end s now id a HD Ha). lra.
Qed.

Lemma tick_keeps_readings_witness :
  let s := activateNode 0 "t1" (Some 1) initialState in
  0 < decayDuration s
  /\ activations (tick 95000 s) !! "t1" = None
  /\ getActivation 95000 "t1" (tick 95000 s) == getActivation 95000 "t1" s.
Proof.
  intros s. split; [reflexivity |]. split; [vm_compute; reflexivity |].
  apply (tick_keeps_readings s 95000 "t1"). reflexivity.
Defined.

(** X3.  The sweep removes records only: when some record is past its decay,
    every record that is left is still decaying or glowing; when none is,
    the store is left as it is (a record exactly at the end of its decay
    stays).  A record that has not reached the end of its decay is never
    removed. *)
Theorem tick_sweeps s (now : Q) :
  activations (tick now s) ⊆ activations s
  /\ ((exists id a, activations s !! id = Some a
                    /\ decayDuration s < now - decayStartsAt a) ->
      forall id a, activations (tick now s) !! id = Some a ->
                   now - decayStartsAt a < decayDuration s)
  /\ ((forall id a, activations s !! id = Some a ->
                    now - decayStartsAt a <= decayDuration s) ->
      tick now s = s)
  /\ (forall id a, activations s !! id = Some a ->
                   now - decayStartsAt a < decayDuration s ->
                   activations (tick now s) !! id = Some a).
Proof.
  refine (conj _ (conj _ (conj _ _))).
  - unfold tick. destruct (existsb _ _); [| reflexivity].
    cbn [activations setActivations]. apply map_filter_subseteq.
  - intros (id0 & a0 & Ha0 & Hover).
    assert (E : existsb (fun kv => decayed now (decayDuration s) (snd kv))
                  (map_to_list (activations s)) = true).
    { apply existsb_exists. exists (id0, a0). split.
      - apply list_elem_of_In, elem_of_map_to_list, Ha0.
      - cbn. now apply Qltb_lt. }
    unfold tick. rewrite E. cbn [activations setActivations].
    intros id a Ha. apply map_lookup_filter_Some in Ha as [_ Halive].
    cbn in Halive. now apply Qltb_true.
  - intros Hnone. unfold tick.
    destruct (existsb _ _) eqn:E; [| reflexivity].
    apply existsb_exists in E as ([id a] & Hin & Hdec).
    apply list_elem_of_In, elem_of_map_to_list in Hin.
    cbn in Hdec. apply Qltb_true in Hdec.
    specialize (Hnone id a Hin). lra.
  - intros id a Ha Hlive. unfold tick. destruct (existsb _ _); [| exact Ha].
    cbn [activations setActivations]. apply map_lookup_filter_Some.
    split; [exact Ha |]. cbn. now apply Qltb_lt.
Qed.

End ActivationMore.

Section ActivationRanges.
Import Js ActivationStore.
Local Open Scope Q_scope.

Implicit Types (s : ActivationState) (id : string)
  (m : gmap string NodeActivation).

Lemma staggered_levels (now glow lvl : Q) (ids : list string) (k : Z) m id a :
  staggered now glow lvl ids k m !! id = Some a ->
  m !! id = Some a \/ level a = lvl.
Proof.
  revert k m. induction ids as [| j ids IH]; intros k m Ha; [now left |].
  cbn [staggered] in Ha. apply IH in Ha as [Ha | Ha]; [| now right].
  destruct (decide (j = id)) as [-> | Hne].
  - rewrite lookup_insert_eq in Ha. injection Ha as <-. now right.
  - rewrite lookup_insert_ne in Ha by exact Hne. now left.
Qed.

Lemma Qmax_unit (a b : Q) :
  0 <= a <= 1 -> 0 <= b <= 1 -> 0 <= Qmax a b /\ Qmax a b <= 1.
Proof.
  intros Ha Hb. destruct (Q.max_spec a b) as [[? E] | [? E]]; rewrite E; lra.
Qed.

Lemma getActivation_unit s (now : Q) id :
  levelsInUnit s -> 0 < decayDuration s ->
  0 <= getActivation now id s /\ getActivation now id s <= 1.
Proof.
  intros Hunit HD. unfold getActivation.
  destruct (activations s !! id) as [a |] eqn:Ha; [| lra].
  destruct (Hunit id a Ha) as [H0 H1].
  destruct (Qltb now (decayStartsAt a)) eqn:E; [lra |].
  apply Qltb_false in E.
  set (p := Qmin 1 ((now - decayStartsAt a) / decayDuration s)).
  assert (Hp : 0 <= p /\ p <= 1).
  { apply Qmin_1_bounds, Qdiv_nonneg; [exact HD | lra]. }
  rewrite pow2_mult.
  assert (0 <= p * p) by nra. assert (p * p <= 1) by nra.
  split; nra.
Qed.

(** X4.  With levels in the range 0-1, a positive decay duration and a proximity
    weight in 0-1, every reading is in the range 0-1, and the range of the
    levels is kept by the sweep and by every activation with an intensity
    that is not negative and a distance that is not negative. *)
Theorem levels_stay_in_unit s :
  levelsInUnit s -> 0 < decayDuration s ->
  0 <= proximityBoost s -> proximityBoost s <= 1 ->
  (forall now id, 0 <= getActivation now id s /\ getActivation now id s <= 1)
  /\ (forall now id x, 0 <= intensityOr1 x ->
        levelsInUnit (activateNode now id x s))
  /\ (forall now ids x, 0 <= intensityOr1 x ->
        levelsInUnit (activateNodes now ids x s))
  /\ (forall now id d, 0 <= d ->
        levelsInUnit (setProximityActivation now id d s))
  /\ (forall now, levelsInUnit (tick now s)).
Proof.
  intros Hunit HD Hb0 Hb1.
  refine (conj _ (conj _ (conj _ (conj _ _)))).
  - intros now id. now apply getActivation_unit.
  - intros now id x Hx j a. unfold activateNode. cbn [activations setActivations].
    destruct (decide (id = j)) as [-> | Hne].
    + rewrite lookup_insert_eq. intros [= <-]. cbn.
      destruct (Qmin_1_bounds _ Hx). now split.
    + rewrite lookup_insert_ne by exact Hne. apply Hunit.
  - intros now ids x Hx j a. unfold activateNodes.
    cbn [activations setActivations]. intros Ha.
    apply staggered_levels in Ha as [Ha | ->]; [now apply (Hunit j) |].
    destruct (Qmin_1_bounds _ Hx). now split.
  - intros now id d Hd j a. unfold setProximityActivation.
    destruct (Qltb d maxProximityDistance) eqn:Hnear; [| apply Hunit].
    apply Qltb_true in Hnear. unfold maxProximityDistance in Hnear.
    assert (Hboost : 0 <= proximityLevel s d <= 1).
    { unfold proximityLevel, maxProximityDistance.
      assert (0 <= d / 20) by (apply Qdiv_nonneg; [reflexivity | exact Hd]).
      assert (d / 20 < 1) by (apply Qlt_shift_div_r; [reflexivity | lra]).
      split; nra. }
    destruct (activations s !! id) as [e |] eqn:He.
    + destruct (Qltb (level e) (proximityLevel s d)); [| apply Hunit].
      cbn [activations setActivations].
      destruct (decide (id = j)) as [-> | Hne].
      * rewrite lookup_insert_eq. intros [= <-]. cbn.
        apply Qmax_unit; [| exact Hboost].
        unfold orElse. destruct (Qeq_bool (level e) 0); [lra |].
        destruct (Hunit j e He). now split.
      * rewrite lookup_insert_ne by exact Hne. apply Hunit.
    + cbn [activations setActivations].
      destruct (decide (id = j)) as [-> | Hne].
      * rewrite lookup_insert_eq. intros [= <-]. cbn.
        apply Qmax_unit; [lra | exact Hboost].
      * rewrite lookup_insert_ne by exact Hne. apply Hunit.
  - intros now j a Ha.
    destruct (tick_lookup s now j) as [E | [E _]]; rewrite E in Ha;
      [now apply (Hunit j) | discriminate].
Qed.

Lemma initial_levelsInUnit : levelsInUnit initialState.
Proof. intros id a Ha. cbn in Ha. now rewrite lookup_empty in Ha. Qed.

Lemma levels_stay_in_unit_witness :
  levelsInUnit initialState
  /\ levelsInUnit (activateNode 0 "t1" (Some (7 # 10)) initialState)
  /\ 0 <= getActivation 5 "t1" initialState.
Proof.
  destruct (levels_stay_in_unit initialState initial_levelsInUnit
              eq_refl ltac:(discriminate) ltac:(discriminate))
    as (Hread & Hnode & _).
  split; [exact initial_levelsInUnit |].
  split; [apply Hnode; discriminate | apply Hread].
Defined.


End ActivationRanges.

(** ** The traversal of a reasoning path *)

Section ThinkingMore.
Import Js ThinkingStore.

Implicit Types (l path : list string) (x id : string) (s : ThinkingState).

Lemma intervalTicks_S (n : nat) s :
  intervalTicks (S n) s = fst (intervalTick (intervalTicks n s)).
Proof. reflexivity. Qed.

Lemma intervalTicks_running (now : Q) path (syn : option string) s (k : nat) :
  (k < length path)%nat ->
  intervalTicks k (startThinking now path syn s)
  = setPathProgress (Z.of_nat k) (startThinking now path syn s).
Proof.
  induction k as [| k IH]; intros Hk; [reflexivity |].
  rewrite intervalTicks_S, IH by lia.
  unfold intervalTick. cbn [isThinking setPathProgress startThinking negb
    pathProgress activePath].
  destruct (Z.of_nat (length path) <=? Z.of_nat k + 1)%Z eqn:E.
  - apply Z.leb_le in E. lia.
  - unfold setPathProgress, startThinking.
    cbn [fst activePath isThinking synthesisId thinkingStartTime
      traversalSpeed]. f_equal. lia.
Qed.

(** X6.  After [startThinking] on a path of [n] thoughts, the [k]-th run of the
    interval ([k < n]) leaves the cursor at [k] on the same path, still
    thinking; each of the first [n - 1] runs advances; the [n]-th run finds
    the end, changes nothing and ends the interval (for the empty path, the
    first run does); once [settle] has run, a run of the interval only
    clears it. *)
Theorem traversal_advances_to_end (now : Q) path (syn : option string) s0 :
  let s := startThinking now path syn s0 in
  let n := length path in
  (forall k, (k < n)%nat ->
     pathProgress (intervalTicks k s) = Z.of_nat k
     /\ isThinking (intervalTicks k s) = true
     /\ activePath (intervalTicks k s) = path
     /\ synthesisId (intervalTicks k s) = orNull syn)
  /\ (forall k, (S k < n)%nat ->
        snd (intervalTick (intervalTicks k s)) = Advanced)
  /\ intervalTick (intervalTicks (n - 1) s)
     = (intervalTicks (n - 1) s, EndReached)
  /\ (forall s', intervalTick (settle s') = (settle s', IntervalCleared)).
Proof.
  intros s n. refine (conj _ (conj _ (conj _ _))).
  - intros k Hk. unfold s. rewrite (intervalTicks_running now path syn s0 k Hk).
    repeat split.
  - intros k Hk. unfold s.
    rewrite (intervalTicks_running now path syn s0 k) by (unfold n in Hk; lia).
    unfold intervalTick. cbn [isThinking setPathProgress startThinking negb
      pathProgress activePath].
    destruct (Z.of_nat (length path) <=? Z.of_nat k + 1)%Z eqn:E; [| reflexivity].
    apply Z.leb_le in E. unfold n in Hk. lia.
  - destruct path as [| p path'].
    + reflexivity.
    + unfold s.
      rewrite (intervalTicks_running now (p :: path') syn s0 (n - 1))
        by (unfold n; cbn [length]; lia).
      unfold intervalTick. cbn [isThinking setPathProgress startThinking negb
        pathProgress activePath].
      destruct (Z.of_nat (length (p :: path')) <=? Z.of_nat (n - 1) + 1)%Z eqn:E;
        [reflexivity |].
      apply Z.leb_gt in E. unfold n in E. cbn [length] in E. lia.
  - intros s'. reflexivity.
Qed.

(** X7.  The cursor stays on the path: [startThinking] and [stopThinking] put it
    at 0, and no run of the interval, no [advancePath], [settle] or change of
    speed moves it off the path. *)
Theorem cursor_stays_on_path s :
  (forall now path syn, cursorOnPath (startThinking now path syn s))
  /\ cursorOnPath (stopThinking s)
  /\ (cursorOnPath s ->
      cursorOnPath (fst (intervalTick s))
      /\ cursorOnPath (advancePath s)
      /\ cursorOnPath (settle s)
      /\ (forall speed, cursorOnPath (setTraversalSpeed speed s))
      /\ (pathProgress s <= pathProgress (advancePath s)
          <= pathProgress s + 1)%Z).
Proof.
  unfold cursorOnPath. refine (conj _ (conj _ _)).
  - intros now path syn. cbn. lia.
  - cbn. lia.
  - intros [H0 H1]. refine (conj _ (conj _ (conj _ (conj _ _)))).
    + unfold intervalTick. destruct (negb (isThinking s)); [cbn; lia |].
      destruct (Z.of_nat (length (activePath s)) <=? pathProgress s + 1)%Z eqn:E;
        [cbn; lia |].
      apply Z.leb_gt in E. cbn. lia.
    + unfold advancePath.
      destruct (pathProgress s <? Z.of_nat (length (activePath s)) - 1)%Z eqn:E;
        [| lia].
      apply Z.ltb_lt in E. cbn. lia.
    + cbn. lia.
    + intros speed. cbn. lia.
    + unfold advancePath.
      destruct (pathProgress s <? Z.of_nat (length (activePath s)) - 1)%Z;
        cbn; lia.
Qed.

Lemma cursor_stays_on_path_witness :
  let s := startThinking 0 ["t1"; "t2"] None initialState in
  cursorOnPath s
  /\ pathProgress (advancePath (advancePath (advancePath s))) = 1%Z.
Proof.
  intros s.
  destruct (cursor_stays_on_path initialState) as [Hstart _].
  split; [apply Hstart | reflexivity].
Defined.

Lemma indexOfFrom_present l x (i : Z) :
  x ∈ l -> (i <= indexOfFrom i l x)%Z.
Proof.
  revert i. induction l as [| y l IH]; intros i Hx.
  - now apply not_elem_of_nil in Hx.
  - cbn. destruct (bool_decide (y = x)) eqn:E; [lia |].
    apply bool_decide_eq_false_1 in E.
    apply elem_of_cons in Hx as [-> | Hx]; [contradiction |].
    specialize (IH (i + 1)%Z Hx). lia.
Qed.

Lemma thinking_reading_bounds s id :
  (0 <= getActivation id s)%Q /\ (getActivation id s <= 1)%Q
  /\ (id ∈ activePath s <-> (0 < getActivation id s)%Q).
Proof.
  unfold getActivation.
  destruct (negb (isThinking s) && bool_decide (length (activePath s) = 0%nat))
    eqn:Hidle.
  - apply andb_true_iff in Hidle as [_ Hlen].
    apply bool_decide_eq_true_1, nil_length_inv in Hlen. rewrite Hlen.
    split; [discriminate |]. split; [discriminate |].
    split; [intros H; now apply not_elem_of_nil in H | discriminate].
  - destruct (decide (id ∈ activePath s)) as [Hin | Hout].
    + pose proof (indexOfFrom_present _ _ 0 Hin) as Hidx. fold (indexOf (activePath s) id) in Hidx.
      destruct (indexOf (activePath s) id =? -1)%Z eqn:E;
        [apply Z.eqb_eq in E; lia |].
      destruct (bool_decide (Some id = synthesisId s)).
      * destruct (_ <=? _)%Z; (split; [discriminate |]);
          (split; [discriminate |]); split; reflexivity || trivial.
      * destruct (indexOf (activePath s) id <=? pathProgress s)%Z eqn:Hle.
        -- apply Z.leb_le in Hle.
           assert (Hd : (0 <= inject_Z (pathProgress s - indexOf (activePath s) id))%Q).
           { change 0%Q with (inject_Z 0). rewrite <- Zle_Qle. lia. }
           set (d := inject_Z (pathProgress s - indexOf (activePath s) id)) in *.
           pose proof (Q.le_max_l (4 # 10) (1 - d * (15 # 100))) as Hmax.
           assert (Hup : (Qmax (4 # 10) (1 - d * (15 # 100)) <= 1)%Q).
           { apply Q.max_lub; [discriminate | lra]. }
           split; [lra |]. split; [exact Hup |].
           split; [intros _; lra | trivial].
        -- split; [discriminate |]. split; [discriminate |].
           split; reflexivity || trivial.
    + unfold indexOf. rewrite (indexOfFrom_absent _ _ 0 Hout). cbn.
      split; [discriminate |]. split; [discriminate |].
      split; [contradiction | discriminate].
Qed.

(** X8.  A reading of the path overlay is between 0 and 1, and it is positive
    exactly for the thoughts on the path. *)
Theorem thinking_activation_marks_path s id :
  (0 <= getActivation id s)%Q /\ (getActivation id s <= 1)%Q
  /\ (id ∈ activePath s <-> (0 < getActivation id s)%Q).
Proof.
  destruct (thinking_reading_bounds s id) as (Hlow & Hup & Hon).
  split; [exact Hlow |]. split; [exact Hup |]. split.
  - intros Hin. now apply Hon.
  - intros Hpos. now apply Hon.
Qed.

(** X9.  The end of the settle time only drops [isThinking]: the path and the
    cursor stay, and every thought of a path that is not empty reads as
    before; it is [stopThinking] that clears the path, after which every
    thought reads 0. *)
Theorem settle_leaves_path_lit s id :
  activePath (settle s) = activePath s
  /\ pathProgress (settle s) = pathProgress s
  /\ isThinking (settle s) = false
  /\ (activePath s <> [] -> getActivation id (settle s) = getActivation id s)
  /\ getActivation id (stopThinking s) = 0%Q.
Proof.
  do 3 (split; [reflexivity |]). split; [| reflexivity].
  intros Hpath. unfold getActivation.
  cbn [settle activePath isThinking pathProgress synthesisId].
  assert (Hlen : length (activePath s) <> 0%nat).
  { intros E. apply nil_length_inv in E. contradiction. }
  rewrite (bool_decide_eq_false_2 _ Hlen), !andb_false_r. reflexivity.
Qed.

End ThinkingMore.

Section ThinkingPathConnections.
Import ThinkingStore ThoughtCard.

Implicit Types (path : list string) (a b : string) (s : ThinkingState).

Lemma consecutiveOn_spec path a b :
  consecutiveOn path a b = true
  <-> exists i : nat,
        (path !! i = Some a /\ path !! S i = Some b)
        \/ (path !! i = Some b /\ path !! S i = Some a).
Proof.
  induction path as [| x path IH]; [split; [discriminate | intros [i [[H _] | [H _]]]; discriminate] |].
  destruct path as [| y rest].
  - split; [discriminate |].
    intros [i [[_ H] | [_ H]]]; destruct i; discriminate.
  - cbn [consecutiveOn]. rewrite !orb_true_iff, !andb_true_iff, IH.
    rewrite !bool_decide_eq_true. split.
    + intros [[[-> ->] | [-> ->]] | [i Hi]].
      * exists 0%nat. now left.
      * exists 0%nat. now right.
      * exists (S i). exact Hi.
    + intros [[| i] Hi].
      * cbn in Hi. left.
        destruct Hi as [[[= ->] [= ->]] | [[= ->] [= ->]]]; [left | right]; now split.
      * right. exists i. exact Hi.
Qed.

(** X10.  A connection is lit as part of the thinking path exactly while the
    store is thinking and its two thoughts are neighbours on the path, in
    either direction; both thoughts then have a positive reading. *)
Theorem thinking_path_connection s a b :
  (isInThinkingPath a b s = true
   <-> isThinking s = true
       /\ exists i : nat,
            (activePath s !! i = Some a /\ activePath s !! S i = Some b)
            \/ (activePath s !! i = Some b /\ activePath s !! S i = Some a))
  /\ isInThinkingPath a b s = isInThinkingPath b a s
  /\ (isInThinkingPath a b s = true ->
      (0 < getActivation a s)%Q /\ (0 < getActivation b s)%Q).
Proof.
  assert (Hiff : forall a b, isInThinkingPath a b s = true
            <-> isThinking s = true
                /\ exists i : nat,
                     (activePath s !! i = Some a /\ activePath s !! S i = Some b)
                     \/ (activePath s !! i = Some b /\ activePath s !! S i = Some a)).
  { clear a b. intros a b.
    unfold isInThinkingPath. destruct (isThinking s); cbn [negb orb].
    - destruct (length (activePath s) <? 2)%nat eqn:E.
      + apply Nat.ltb_lt in E. split; [discriminate |].
        intros [_ [i [[_ H] | [_ H]]]]; apply lookup_lt_Some in H; lia.
      + rewrite consecutiveOn_spec. tauto.
    - split; [discriminate | intros [H _]; discriminate]. }
  split; [apply Hiff |]. split.
  - apply eq_true_iff_eq. rewrite !Hiff.
    split; intros [Ht [i Hi]]; (split; [exact Ht | exists i; tauto]).
  - intros H. apply Hiff in H as [_ [i Hi]].
    split; apply thinking_reading_bounds;
      destruct Hi as [[Ha Hb] | [Hb Ha]];
      eapply list_elem_of_lookup_2; eassumption.
Qed.

End ThinkingPathConnections.

(** ** Playback and visibility on the timeline *)

Section TimelineMore.
Import Js TimelineStore.
Local Open Scope Q_scope.

Implicit Types (s : TimelineState).

Lemma Qmax_ge_l (a b : Q) : a <= Qmax a b.
Proof. apply Q.le_max_l. Qed.

Lemma foldl_Qmin_le (t : Q) (rest : list Q) :
  foldl Qmin t rest <= t /\ Forall (fun u => foldl Qmin t rest <= u) rest.
Proof.
  revert t. induction rest as [| u rest IH]; intros t; cbn.
  - split; [apply Qle_refl | constructor].
  - destruct (IH (Qmin t u)) as [H1 H2].
    pose proof (Q.le_min_l t u). pose proof (Q.le_min_r t u).
    split; [lra |]. constructor; [lra | exact H2].
Qed.

Lemma foldl_Qmax_ge (t : Q) (rest : list Q) :
  t <= foldl Qmax t rest /\ Forall (fun u => u <= foldl Qmax t rest) rest.
Proof.
  revert t. induction rest as [| u rest IH]; intros t; cbn.
  - split; [apply Qle_refl | constructor].
  - destruct (IH (Qmax t u)) as [H1 H2].
    pose proof (Q.le_max_l t u). pose proof (Q.le_max_r t u).
    split; [lra |]. constructor; [lra | exact H2].
Qed.

(** X11.  Entering the timeline with no thoughts changes nothing.  With thoughts,
    the timeline is active and paused at its start; every creation time lies
    between the start and the end, the end is not before the present, and
    the thoughts are all visible once the clock is scrubbed to the end
    (progress 1), while at the start a thought is visible exactly when it is
    as old as the oldest. *)
Theorem enterTimeline_spans_thoughts s (now : Q) (times : list Q)
    (parse : string -> option Q) :
  enterTimeline now [] s = s
  /\ (times <> [] ->
      let s' := enterTimeline now times s in
      isActive s' = true /\ isPlaying s' = false
      /\ currentTime s' = startTime s'
      /\ startTime s' <= endTime s' /\ now <= endTime s'
      /\ (forall t, t ∈ times -> startTime s' <= t /\ t <= endTime s')
      /\ (forall t, t ∈ times ->
            isVisible parse (DateObj (Some t)) (setProgress 1 s') = true)
      /\ (forall t, t ∈ times ->
            isVisible parse (DateObj (Some t)) s' = true <-> t == startTime s')).
Proof.
  split; [reflexivity |]. intros Hne. destruct times as [| t0 rest]; [contradiction |].
  cbn zeta. cbn [enterTimeline isActive isPlaying currentTime startTime endTime].
  destruct (foldl_Qmin_le t0 rest) as [Hmin0 Hmin].
  destruct (foldl_Qmax_ge t0 rest) as [Hmax0 Hmax].
  pose proof (Q.le_max_l (foldl Qmax t0 rest) now) as Hl.
  pose proof (Q.le_max_r (foldl Qmax t0 rest) now) as Hr.
  rewrite Forall_forall in Hmin, Hmax.
  assert (Hspan : forall t, t ∈ t0 :: rest ->
            foldl Qmin t0 rest <= t /\ t <= Qmax (foldl Qmax t0 rest) now).
  { intros t Ht. apply elem_of_cons in Ht as [-> | Ht].
    - split; lra.
    - specialize (Hmin t Ht). specialize (Hmax t Ht). split; lra. }
  do 3 (split; [reflexivity |]).
  split; [lra |]. split; [exact Hr |]. split; [exact Hspan |]. split.
  - intros t Ht. destruct (Hspan t Ht) as [H1 H2].
    unfold isVisible, setProgress. cbn. apply Qle_bool_iff.
    assert (E : Qmax 0 (Qmin 1 1) == 1) by reflexivity.
    rewrite E. lra.
  - intros t Ht. destruct (Hspan t Ht) as [H1 H2].
    unfold isVisible. cbn. rewrite Qle_bool_iff. split; intros H; lra.
Qed.

Lemma enterTimeline_spans_thoughts_witness :
  let s' := enterTimeline 9000 [4000; 2000; 7000] Examples.scrubExample in
  startTime s' == 2000 /\ endTime s' == 9000
  /\ isVisible (fun _ => None) (DateObj (Some 7000)) (setProgress 1 s') = true.
Proof.
  intros s'. split; [reflexivity |]. split; [reflexivity |].
  destruct (enterTimeline_spans_thoughts Examples.scrubExample 9000
              [4000; 2000; 7000] (fun _ => None)) as [_ H].
  destruct (H ltac:(discriminate)) as (_ & _ & _ & _ & _ & _ & Hend & _).
  apply Hend. apply list_elem_of_In. cbn. tauto.
Defined.

End TimelineMore.

Section TimelineClock.
Import Js TimelineStore.
Local Open Scope Q_scope.

Implicit Types (s : TimelineState).

Lemma clamp_between (lo hi t : Q) :
  lo <= hi -> lo <= Qmax lo (Qmin hi t) /\ Qmax lo (Qmin hi t) <= hi.
Proof.
  intros H. destruct (Q.max_spec lo (Qmin hi t)) as [[? E] | [? E]];
    destruct (Q.min_spec hi t) as [[? E'] | [? E']]; lra.
Qed.

Lemma clamp_inside (lo hi t : Q) :
  lo <= t -> t <= hi -> Qmax lo (Qmin hi t) == t.
Proof.
  intros H1 H2. destruct (Q.max_spec lo (Qmin hi t)) as [[? E] | [? E]];
    destruct (Q.min_spec hi t) as [[? E'] | [? E']]; lra.
Qed.

(** X12.  Once the clock is within the bounds of the timeline it stays there:
    under [setCurrentTime] and [setProgress] with any argument (a time
    inside the bounds is taken as it is), under [togglePlayback], and under
    [tick] with a step and a speed that are not negative; the progress is
    then between 0 and 1. *)
Theorem clock_stays_in_range s :
  clockInRange s ->
  (forall time, clockInRange (setCurrentTime time s))
  /\ (forall time, startTime s <= time -> time <= endTime s ->
        currentTime (setCurrentTime time s) == time)
  /\ (forall p, clockInRange (setProgress p s))
  /\ clockInRange (togglePlayback s)
  /\ (forall delta, 0 <= delta -> 0 <= playbackSpeed s ->
        clockInRange (tick delta s)
        /\ currentTime s <= currentTime (tick delta s))
  /\ (0 <= getProgress s /\ getProgress s <= 1).
Proof.
  intros [Hlo Hhi]. assert (Hse : startTime s <= endTime s) by lra.
  unfold clockInRange.
  refine (conj _ (conj _ (conj _ (conj _ (conj _ _))))).
  - intros time. cbn. now apply clamp_between.
  - intros time H1 H2. cbn. now apply clamp_inside.
  - intros p. cbn.
    destruct (clamp_between 0 1 p ltac:(discriminate)) as [H0 H1].
    set (c := Qmax 0 (Qmin 1 p)) in *. split; nra.
  - unfold togglePlayback. destruct (negb (isPlaying s) && _); cbn; lra.
  - intros delta Hd Hsp. unfold tick.
    destruct (negb (isActive s) || negb (isPlaying s)); [lra |].
    assert (Hadv : 0 <= delta * 1000 * playbackSpeed s) by nra.
    destruct (Qle_bool (endTime s) (currentTime s + delta * 1000 * playbackSpeed s))
      eqn:E; cbn.
    + lra.
    + assert (currentTime s + delta * 1000 * playbackSpeed s < endTime s).
      { destruct (Qlt_le_dec (currentTime s + delta * 1000 * playbackSpeed s)
                    (endTime s)) as [H | H]; [exact H |].
        apply Qle_bool_iff in H. congruence. }
      lra.
  - unfold getProgress. destruct (Qeq_bool (endTime s) (startTime s)) eqn:E;
      [split; discriminate |].
    assert (Hlt : startTime s < endTime s).
    { destruct (Qlt_le_dec (startTime s) (endTime s)) as [H | H]; [exact H |].
      assert (Heq : endTime s == startTime s) by lra.
      apply Qeq_bool_iff in Heq. congruence. }
    split.
    + apply Qle_shift_div_l; lra.
    + apply Qle_shift_div_r; lra.
Qed.

Lemma clock_stays_in_range_witness :
  clockInRange Examples.scrubExample
  /\ clockInRange (setCurrentTime 99999 Examples.scrubExample)
  /\ currentTime (setCurrentTime 99999 Examples.scrubExample) == 5000.
Proof.
  assert (H : clockInRange Examples.scrubExample) by (split; discriminate).
  split; [exact H |]. split; [| reflexivity].
  apply (clock_stays_in_range Examples.scrubExample H).
Defined.

Lemma tick_reaches_end s (delta : Q) :
  isActive s = true -> isPlaying s = true ->
  endTime s <= currentTime s + delta * 1000 * playbackSpeed s ->
  tick delta s = withTime (endTime s) false s.
Proof.
  intros Ha Hp Hend. unfold tick. rewrite Ha, Hp. cbn [negb orb].
  apply Qle_bool_iff in Hend. now rewrite Hend.
Qed.

Lemma tick_advances s (delta : Q) :
  isActive s = true -> isPlaying s = true ->
  currentTime s + delta * 1000 * playbackSpeed s < endTime s ->
  tick delta s
  = withTime (currentTime s + delta * 1000 * playbackSpeed s) true s.
Proof.
  intros Ha Hp Hlt. unfold tick. rewrite Ha, Hp. cbn [negb orb].
  destruct (Qle_bool _ _) eqn:E; [| reflexivity].
  apply Qle_bool_iff in E. lra.
Qed.

Lemma tick_paused s (delta : Q) : isPlaying s = false -> tick delta s = s.
Proof. intros Hp. unfold tick. rewrite Hp. now rewrite orb_true_r. Qed.

(** X13.  Playback never runs past the end: a step that would reach the end puts
    the clock exactly there and stops playback, any other step advances the
    clock by [delta * 1000 * playbackSpeed]; a stopped timeline is not moved
    by [tick]; and toggling playback on a paused timeline whose clock is at
    the end restarts it from the start. *)
Theorem playback_stops_at_end s (delta : Q) :
  isActive s = true -> isPlaying s = true ->
  let step := delta * 1000 * playbackSpeed s in
  (endTime s <= currentTime s + step ->
     currentTime (tick delta s) = endTime s
     /\ isPlaying (tick delta s) = false
     /\ tick delta (tick delta s) = tick delta s
     /\ currentTime (togglePlayback (tick delta s)) = startTime s
     /\ isPlaying (togglePlayback (tick delta s)) = true)
  /\ (currentTime s + step < endTime s ->
        currentTime (tick delta s) = currentTime s + step
        /\ isPlaying (tick delta s) = true)
  /\ currentTime (tick delta s) <= endTime s
  /\ tick delta (pause s) = pause s.
Proof.
  intros Ha Hp step.
  refine (conj _ (conj _ (conj _ _))).
  - intros Hend. rewrite (tick_reaches_end s delta Ha Hp Hend).
    refine (conj eq_refl (conj eq_refl (conj _ _))).
    + now apply tick_paused.
    + unfold togglePlayback. cbn.
      assert (E : Qle_bool (endTime s) (endTime s) = true)
        by (apply Qle_bool_iff, Qle_refl).
      rewrite E. cbn. split; reflexivity.
  - intros Hlt. rewrite (tick_advances s delta Ha Hp Hlt). split; reflexivity.
  - destruct (Qlt_le_dec (currentTime s + step) (endTime s)) as [H | H].
    + rewrite (tick_advances s delta Ha Hp H). cbn. fold step. lra.
    + rewrite (tick_reaches_end s delta Ha Hp H). cbn. apply Qle_refl.
  - now apply tick_paused.
Qed.

Lemma playback_stops_at_end_witness :
  let s := play Examples.scrubExample in
  currentTime (tick 1 s) = 5000 /\ isPlaying (tick 1 s) = false.
Proof.
  intros s.
  destruct (playback_stops_at_end s 1 eq_refl eq_refl) as [Hend _].
  destruct (Hend ltac:(discriminate)) as (Ht & Hp & _).
  split; [exact Ht | exact Hp].
Defined.

End TimelineClock.

Section TimelineVisibility.
Import Js TimelineStore.
Local Open Scope Q_scope.

Implicit Types (s : TimelineState).

Variable parse : string -> option Q.

Lemma getVisibility_cases s (d : DateLike) (t : Q) :
  isActive s = true -> itemTimeOf parse d = Some t ->
  (currentTime s < t /\ getVisibility parse d s = 0)
  \/ (t <= currentTime s /\ currentTime s < t + 2000
      /\ getVisibility parse d s = (currentTime s - t) / 2000)
  \/ (t + 2000 <= currentTime s /\ getVisibility parse d s = 1).
Proof.
  intros Ha Ht. unfold getVisibility. rewrite Ha, Ht. cbn [negb].
  destruct (Qltb (currentTime s) t) eqn:E1.
  - left. split; [now apply Qltb_true | reflexivity].
  - apply Qltb_false in E1. right.
    destruct (Qltb (currentTime s - t) fadeWindow) eqn:E2.
    + left. apply Qltb_true in E2. unfold fadeWindow in E2.
      split; [exact E1 |]. split; [lra | reflexivity].
    + right. apply Qltb_false in E2. unfold fadeWindow in E2.
      split; [lra | reflexivity].
Qed.

(** X14.  In timeline mode, an item with a valid creation time [t]: it is visible
    exactly when [t] is not after the clock; its opacity is 0 before [t],
    rises linearly over the 2000 ms after [t] and is 1 from then on; it is
    always between 0 and 1, and moving the clock forward never hides the
    item nor lowers its opacity. *)
Theorem visibility_fades_in s (d : DateLike) (t : Q) :
  isActive s = true -> itemTimeOf parse d = Some t ->
  (isVisible parse d s = true <-> t <= currentTime s)
  /\ (currentTime s < t -> getVisibility parse d s = 0)
  /\ (t <= currentTime s -> currentTime s < t + 2000 ->
        getVisibility parse d s = (currentTime s - t) / 2000)
  /\ (t + 2000 <= currentTime s -> getVisibility parse d s = 1)
  /\ (0 <= getVisibility parse d s /\ getVisibility parse d s <= 1)
  /\ (forall s2, isActive s2 = true -> currentTime s <= currentTime s2 ->
        getVisibility parse d s <= getVisibility parse d s2
        /\ (isVisible parse d s = true -> isVisible parse d s2 = true)).
Proof.
  intros Ha Ht.
  assert (Hvis : forall s', isActive s' = true ->
            (isVisible parse d s' = true <-> t <= currentTime s')).
  { intros s' Ha'. unfold isVisible. rewrite Ha', Ht. cbn [negb].
    apply Qle_bool_iff. }
  assert (Hdiv : forall u, 0 <= u -> u < 2000 -> 0 <= u / 2000 /\ u / 2000 < 1).
  { intros u H0 H1. split.
    - apply Qle_shift_div_l; [reflexivity | lra].
    - apply Qlt_shift_div_r; [reflexivity | lra]. }
  pose proof (getVisibility_cases s d t Ha Ht) as Hc.
  refine (conj (Hvis s Ha) (conj _ (conj _ (conj _ (conj _ _))))).
  - intros H. destruct Hc as [[_ E] | [(? & _) | (? & _)]]; [exact E | lra | lra].
  - intros H1 H2. destruct Hc as [[? _] | [(_ & _ & E) | (? & _)]];
      [lra | exact E | lra].
  - intros H. destruct Hc as [[? _] | [(_ & ? & _) | (_ & E)]];
      [lra | lra | exact E].
  - destruct Hc as [[_ E] | [(H1 & H2 & E) | (_ & E)]]; rewrite E.
    + split; discriminate.
    + destruct (Hdiv (currentTime s - t)); [lra | lra |]. split; lra.
    + split; discriminate.
  - intros s2 Ha2 Hle. split.
    + pose proof (getVisibility_cases s2 d t Ha2 Ht) as Hc2.
      destruct Hc as [[H E] | [(H1 & H2 & E) | (H & E)]];
        destruct Hc2 as [[H' E'] | [(H1' & H2' & E') | (H' & E')]];
        rewrite E, E'; try lra; try discriminate.
      * destruct (Hdiv (currentTime s2 - t)); [lra | lra |]. lra.
      * apply Qdiv_mono; [reflexivity | lra].
      * destruct (Hdiv (currentTime s - t)); [lra | lra |]. lra.
    + rewrite (Hvis s Ha), (Hvis s2 Ha2). lra.
Qed.

(** X15.  In timeline mode an item whose date is invalid is reported as not
    visible by [isVisible] and at full opacity by [getVisibility]; an item
    created exactly at the clock is visible at opacity 0. *)
Theorem visibility_of_invalid_date s (d : DateLike) :
  isActive s = true ->
  (itemTimeOf parse d = None ->
     isVisible parse d s = false /\ getVisibility parse d s = 1)
  /\ (itemTimeOf parse d = Some (currentTime s) ->
        isVisible parse d s = true /\ getVisibility parse d s == 0).
Proof.
  intros Ha. split.
  - intros Ht. unfold isVisible, getVisibility. now rewrite Ha, Ht.
  - intros Ht. split.
    + unfold isVisible. rewrite Ha, Ht. cbn [negb].
      apply Qle_bool_iff, Qle_refl.
    + destruct (getVisibility_cases s d (currentTime s) Ha Ht)
        as [[H _] | [(_ & _ & E) | (H & _)]]; [lra | | lra].
      rewrite E. unfold Qdiv. ring.
Qed.

End TimelineVisibility.

Lemma visibility_fades_in_witness :
  let s := Examples.scrubExample in
  TimelineStore.getVisibility (fun _ => None)
    (TimelineStore.DateObj (Some 2500%Q)) s = ((3000 - 2500) / 2000)%Q.
Proof.
  intros s.
  apply (visibility_fades_in (fun _ => None) s
           (TimelineStore.DateObj (Some 2500%Q)) 2500%Q eq_refl eq_refl);
    reflexivity || discriminate.
Defined.

Lemma visibility_of_invalid_date_witness :
  TimelineStore.isVisible (fun _ => None) (TimelineStore.DateString "soon")
    Examples.scrubExample = false
  /\ TimelineStore.getVisibility (fun _ => None)
       (TimelineStore.DateString "soon") Examples.scrubExample = 1%Q.
Proof.
  apply (visibility_of_invalid_date (fun _ => None) Examples.scrubExample
           (TimelineStore.DateString "soon") eq_refl).
  reflexivity.
Defined.

(** ** The graph store: loads and arrivals *)

Section StoreMore.
Import MindStore.

Implicit Types (b : Backend) (s : MindState) (w : Stores).



Lemma last_occurrence (l : list string) (x : string) :
  x ∈ l -> exists i : nat, l !! i = Some x /\ x ∉ drop (S i) l.
Proof.
  induction l as [| y l IH]; intros Hx; [now apply not_elem_of_nil in Hx |].
  destruct (decide (x ∈ l)) as [Hin | Hout].
  - destruct (IH Hin) as (i & Hi & Hd). exists (S i). now split.
  - apply elem_of_cons in Hx as [-> | Hx]; [| contradiction].
    exists 0%nat. cbn. rewrite drop_0. now split.
Qed.

Lemma connectedIdOf_self newId (c : Connection) :
  touches newId c -> (connectedIdOf newId c = newId <-> selfConnection newId c).
Proof.
  intros Ht. split; [intros H; now apply connectedIdOf_new |].
  intros [Hf Hto]. unfold connectedIdOf.
  now rewrite bool_decide_eq_true_2 by exact Hf.
Qed.

(** X17.  [addThought] appends the thought to the graph and leaves the
    connections; every thought connected to the new one shines at level 0.6,
    and the new thought, unless it is connected to itself, at level 1 from
    the time of the call; the traversal starts, with the new thought as
    synthesis, exactly when the derived path has more than the new thought
    on it, and the path overlay is untouched otherwise (in particular when
    no connection touches the new thought). *)
Theorem addThought_effects (now : Q) (thought : Thought) w :
  let w' := addThought now thought w in
  let newId := thought_id thought in
  let cs := connections (mind w) in
  let path := findReasoningPath newId (thoughts (mind w)) cs in
  thoughts (mind w') = thoughts (mind w) ++ [thought]
  /\ connections (mind w') = cs
  /\ ((forall c, c ∈ cs -> ~ selfConnection newId c) ->
      ActivationStore.activations (activation w') !! newId
      = Some {| ActivationStore.thoughtId := newId;
                ActivationStore.level := 1;
                ActivationStore.lastActivatedAt := now;
                ActivationStore.decayStartsAt :=
                  (now + ActivationStore.glowDuration (activation w))%Q |})
  /\ (forall c, c ∈ cs -> touches newId c ->
        exists a, ActivationStore.activations (activation w')
                    !! connectedIdOf newId c = Some a
                  /\ ActivationStore.level a = (6 # 10)%Q)
  /\ ((1 < length path)%nat ->
        thinking w'
        = ThinkingStore.startThinking now path (Some newId) (thinking w))
  /\ (length path = 1%nat -> thinking w' = thinking w)
  /\ (connectedToNew newId cs = [] ->
        thinking w' = thinking w
        /\ ActivationStore.activations (activation w')
           = <[newId := {| ActivationStore.thoughtId := newId;
                           ActivationStore.level := 1;
                           ActivationStore.lastActivatedAt := now;
                           ActivationStore.decayStartsAt :=
                             (now + ActivationStore.glowDuration (activation w))%Q |}]>
               (ActivationStore.activations (activation w))).
Proof.
  intros w' newId cs path. unfold w', addThought. fold newId cs path.
  cbn [mind thinking activation setGraph thoughts connections].
  set (connected := connectedIdOf newId <$> connectedToNew newId cs).
  refine (conj eq_refl (conj eq_refl (conj _ (conj _ (conj _ (conj _ _)))))).
  - intros Hself.
    assert (Hout : newId ∉ connected).
    { intros Hin. apply list_elem_of_fmap in Hin as (c & Hid & Hc).
      apply list_elem_of_filter in Hc as [Ht Hc].
      apply (Hself c Hc). apply connectedIdOf_self; [exact Ht | now symmetry]. }
    destruct (0 <? length connected)%nat.
    + unfold ActivationStore.activateNodes.
      cbn [ActivationStore.activations ActivationStore.setActivations].
      rewrite staggered_absent by exact Hout.
      apply (activateNode_lookup (activation w) now newId (Some 1%Q)).
    + apply (activateNode_lookup (activation w) now newId (Some 1%Q)).
  - intros c Hc Ht.
    assert (Hin : connectedIdOf newId c ∈ connected).
    { apply list_elem_of_fmap. exists c. split; [reflexivity |].
      apply list_elem_of_filter. now split. }
    destruct (0 <? length connected)%nat eqn:E.
    + destruct (last_occurrence _ _ Hin) as (i & Hi & Hlast).
      eexists. split.
      * unfold ActivationStore.activateNodes.
        cbn [ActivationStore.activations ActivationStore.setActivations].
        apply (staggered_last _ _ _ connected 0 _ _ i Hi Hlast).
      * reflexivity.
    + apply Nat.ltb_ge in E. destruct connected; [| cbn in E; lia].
      now apply not_elem_of_nil in Hin.
  - intros Hlen. now rewrite (proj2 (Nat.ltb_lt _ _) Hlen).
  - intros Hlen. rewrite Hlen. reflexivity.
  - intros Hnone.
    assert (Hpath : path = [newId]).
    { unfold path, findReasoningPath. now rewrite Hnone. }
    unfold connected. rewrite Hpath, Hnone. cbn. split; reflexivity.
Qed.

(** X18.  [addConnection] appends the connection and leaves the thoughts and the
    path overlay; its target thought shines at level 0.8 from 200 ms after
    the call, its source thought (when it is another thought) from the call
    itself, and no other thought's record changes. *)
Theorem addConnection_effects (now : Q) (c : Connection) w :
  let w' := addConnection now c w in
  let glow := ActivationStore.glowDuration (activation w) in
  connections (mind w') = connections (mind w) ++ [c]
  /\ thoughts (mind w') = thoughts (mind w)
  /\ thinking w' = thinking w
  /\ ActivationStore.activations (activation w') !! toThought c
     = Some {| ActivationStore.thoughtId := toThought c;
               ActivationStore.level := (8 # 10)%Q;
               ActivationStore.lastActivatedAt := (now + inject_Z 1 * 200)%Q;
               ActivationStore.decayStartsAt := (now + inject_Z 1 * 200 + glow)%Q |}
  /\ (fromThought c <> toThought c ->
      ActivationStore.activations (activation w') !! fromThought c
      = Some {| ActivationStore.thoughtId := fromThought c;
                ActivationStore.level := (8 # 10)%Q;
                ActivationStore.lastActivatedAt := (now + inject_Z 0 * 200)%Q;
                ActivationStore.decayStartsAt := (now + inject_Z 0 * 200 + glow)%Q |})
  /\ (forall other, other <> fromThought c -> other <> toThought c ->
        ActivationStore.activations (activation w') !! other
        = ActivationStore.activations (activation w) !! other).
Proof.
  intros w' glow. unfold w', addConnection.
  cbn [mind thinking activation setGraph thoughts connections].
  do 3 (split; [reflexivity |]).
  unfold ActivationStore.activateNodes.
  cbn [ActivationStore.activations ActivationStore.setActivations].
  refine (conj _ (conj _ _)).
  - apply (staggered_last _ _ _ [fromThought c; toThought c] 0 _
             (toThought c) 1 eq_refl).
    cbn. apply not_elem_of_nil.
  - intros Hne.
    apply (staggered_last _ _ _ [fromThought c; toThought c] 0 _
             (fromThought c) 0 eq_refl).
    cbn. rewrite not_elem_of_cons. split; [exact Hne | apply not_elem_of_nil].
  - intros other H1 H2. apply staggered_absent.
    rewrite !not_elem_of_cons. repeat split; try assumption. apply not_elem_of_nil.
Qed.

End StoreMore.

(** ** The hook in spatial mode *)

Section SyncMore.
Import MindStore DatabaseSync.

Implicit Types (v : DbVersion) (b : Backend) (st : SyncState).

(** X19.  Once the store is in spatial mode, a changed token makes the hook load
    near the origin with the default radius and cap, without asking for the
    thought count again: when the spatial query answers, the store stays in
    spatial mode with the count it had, whatever the count is now; when it
    rejects, the store falls back to the full graph and leaves spatial
    mode.  A poll that rejects keeps the accepted token and reloads through
    [loadFromDatabase]; outside Tauri a poll does nothing. *)
Theorem spatial_mode_is_sticky (loadedAt : Q) v b st :
  useSpatialLoading (store st) = true ->
  versionChanged v (lastVersion st) = true ->
  let run := checkForUpdates loadedAt true (Some v) b st in
  (forall ts cs, windowQuery b 0 0 50 80 300 = Some (ts, cs) ->
     snd run = [CallLoadNearCamera 0 0 50]
     /\ lastVersion (fst run) = v
     /\ thoughts (store (fst run)) = ts
     /\ connections (store (fst run)) = cs
     /\ useSpatialLoading (store (fst run)) = true
     /\ totalThoughtCount (store (fst run)) = totalThoughtCount (store st))
  /\ (forall ts cs, windowQuery b 0 0 50 80 300 = None ->
        get_all_thoughts b = Some ts -> get_all_connections b = Some cs ->
        snd run = [CallLoadNearCamera 0 0 50]
        /\ thoughts (store (fst run)) = ts
        /\ connections (store (fst run)) = cs
        /\ useSpatialLoading (store (fst run)) = false)
  /\ checkForUpdates loadedAt true None b st
     = ({| lastVersion := lastVersion st;
           store := loadFromDatabase loadedAt true b (store st) |},
        [CallLoadFromDatabase])
  /\ (forall poll, checkForUpdates loadedAt false poll b st = (st, [])).
Proof.
  intros Hsp Hch run. unfold run, checkForUpdates. cbn [negb].
  rewrite Hch, Hsp. unfold loadNearCamera. cbn [negb default from_option id].
  change DEFAULT_SPATIAL_RADIUS with 80%Q.
  change DEFAULT_SPATIAL_LIMIT with 300%Z.
  refine (conj _ (conj _ (conj eq_refl _))).
  - intros ts cs Hw. rewrite Hw. cbn. rewrite Hsp. repeat split; reflexivity.
  - intros ts cs Hw Hts Hcs. rewrite Hw, Hts, Hcs. cbn. repeat split; reflexivity.
  - intros poll. reflexivity.
Qed.

Lemma spatial_mode_is_sticky_witness :
  let run := checkForUpdates 0 true (Some (Examples.token 6 5)) Examples.crowded
               Examples.spatialSync in
  useSpatialLoading (store Examples.spatialSync) = true
  /\ snd run = [CallLoadNearCamera 0 0 50]
  /\ useSpatialLoading (store (fst run)) = true
  /\ length (thoughts (store (fst run))) = 3%nat.
Proof.
  intros run.
  destruct (spatial_mode_is_sticky 0 (Examples.token 6 5) Examples.crowded
              Examples.spatialSync eq_refl eq_refl) as [Hok _].
  destruct (Hok _ _ eq_refl) as (Hcalls & _ & Hts & _ & Hflag & _).
  split; [reflexivity |]. split; [exact Hcalls |]. split; [exact Hflag |].
  unfold run. rewrite Hts. reflexivity.
Defined.

End SyncMore.

(** ** Idle detection *)

Section IdleFacts.
Import Js IdleStore.
Local Open Scope Q_scope.

Implicit Types (s : IdleState).

Lemma checkIdle_fields s (now : Q) :
  lastInputTime (checkIdle now s) = lastInputTime s
  /\ idleTimeoutMs (checkIdle now s) = idleTimeoutMs s
  /\ (isIdle (checkIdle now s) = true
      <-> isIdle s = true \/ idleTimeoutMs s < now - lastInputTime s).
Proof.
  unfold checkIdle.
  destruct (Qltb (idleTimeoutMs s) (now - lastInputTime s)) eqn:E;
    destruct (isIdle s) eqn:Hi; cbn; rewrite ?Hi.
  - apply Qltb_true in E. repeat split; tauto.
  - apply Qltb_true in E. repeat split; tauto.
  - repeat split; tauto.
  - apply Qltb_false in E. repeat split; try tauto.
    intros [H | H]; [discriminate | lra].
Qed.

Lemma checksAt_fields (times : list Q) s :
  lastInputTime (checksAt times s) = lastInputTime s
  /\ idleTimeoutMs (checksAt times s) = idleTimeoutMs s
  /\ (isIdle (checksAt times s) = true
      <-> isIdle s = true
          \/ exists t, t ∈ times /\ idleTimeoutMs s < t - lastInputTime s).
Proof.
  revert s. induction times as [| t times IH]; intros s.
  - cbn. repeat split; [tauto |].
    intros [H | (t & Ht & _)]; [exact H | now apply not_elem_of_nil in Ht].
  - unfold checksAt. cbn [foldl]. fold (checksAt times (checkIdle t s)).
    destruct (IH (checkIdle t s)) as (Hl & Ht & Hi).
    destruct (checkIdle_fields s t) as (Hl' & Ht' & Hi').
    rewrite Hl, Ht, Hi, Hl', Ht', Hi'. repeat split; try reflexivity.
    + intros [[H | H] | (u & Hu & Hlt)].
      * now left.
      * right. exists t. split; [apply list_elem_of_here | exact H].
      * right. exists u. split; [now apply list_elem_of_further | exact Hlt].
    + intros [H | (u & Hu & Hlt)]; [now left; left |].
      apply elem_of_cons in Hu as [-> | Hu].
      * left. now right.
      * right. exists u. now split.
Qed.

(** X20.  After an input at [t0], the store is idle after a series of checks
    exactly when one of the checks came more than the timeout after [t0];
    the checks never wake an idle store and never move the time of the last
    input, and an input always wakes the store. *)
Theorem idle_exactly_after_timeout s (t0 : Q) (times : list Q) :
  let awake := resetActivity t0 s in
  isIdle awake = false
  /\ (isIdle (checksAt times awake) = true
      <-> exists t, t ∈ times /\ idleTimeoutMs s < t - t0)
  /\ lastInputTime (checksAt times awake) = t0
  /\ (isIdle s = true -> isIdle (checksAt times s) = true).
Proof.
  intros awake.
  destruct (checksAt_fields times awake) as (Hl & _ & Hi).
  destruct (checksAt_fields times s) as (_ & _ & Hi').
  refine (conj eq_refl (conj _ (conj Hl _))).
  - rewrite Hi. cbn. split; [intros [H | H]; [discriminate | exact H] | now right].
  - intros H. apply Hi'. now left.
Qed.

End IdleFacts.

(** ** The scene: timeline filter and spatial pagination *)

Section SceneMore.
Import Js MindStore MindSpace.
Local Open Scope Q_scope.

Variable parse : string -> option Q.

Implicit Types (ts : list Thought) (cs : list Connection) (c : Connection)
  (r : SpatialRefs).



Lemma spatialFrame_pending (camPos : Position) (delta : Q) r :
  spatialLoadPending r = true ->
  snd (spatialFrame true camPos delta r) = None
  /\ spatialLoadPending (fst (spatialFrame true camPos delta r)) = true.
Proof.
  intros Hp. unfold spatialFrame. rewrite Hp, andb_false_r. cbn. now split.
Qed.

Lemma spatialRun_pending (events : list SpatialEvent) r :
  Forall isFrame events -> spatialLoadPending r = true ->
  snd (spatialRun events r) = []
  /\ spatialLoadPending (fst (spatialRun events r)) = true.
Proof.
  revert r. induction events as [| e events IH]; intros r Hall Hp;
    [now split |].
  apply Forall_cons in Hall as [He Hall].
  destruct e as [camPos delta |]; [| contradiction].
  cbn [spatialRun].
  destruct (spatialFrame_pending camPos delta r Hp) as [Hnone Hp'].
  destruct (spatialFrame true camPos delta r) as [r' started].
  cbn in Hnone, Hp'. subst started.
  destruct (IH r' Hall Hp') as [E Hp''].
  destruct (spatialRun events r') as [r'' later]. cbn in *. now subst later.
Qed.

(** X22.  Loads triggered by the movement of the camera are single-flight: in any
    run of frames during which no load settles, at most one load starts,
    and none while one is pending. *)
Theorem spatial_loads_single_flight (events : list SpatialEvent) r :
  Forall isFrame events ->
  (length (snd (spatialRun events r)) <= 1)%nat
  /\ (spatialLoadPending r = true -> snd (spatialRun events r) = [])
  /\ (snd (spatialRun events r) <> [] ->
      spatialLoadPending (fst (spatialRun events r)) = true).
Proof.
  intros Hall.
  assert (Hp : spatialLoadPending r = true -> snd (spatialRun events r) = [])
    by (intros H; now apply spatialRun_pending).
  revert r Hp. induction events as [| e events IH]; intros r Hp.
  - cbn. split; [lia |]. split; [trivial | contradiction].
  - apply Forall_cons in Hall as [He Hall].
    destruct e as [camPos delta |]; [| contradiction].
    split; [| split; [exact Hp |]].
    + cbn [spatialRun]. unfold spatialFrame.
      destruct (movedFar _ _ && Qle_bool _ 0 && negb (spatialLoadPending r)).
      * match goal with
        | |- context [spatialRun events ?r'] =>
            destruct (spatialRun_pending events r' Hall eq_refl) as [E _];
            destruct (spatialRun events r') as [r'' later]
        end. cbn in *. subst later. cbn. lia.
      * match goal with
        | |- context [spatialRun events ?r'] =>
            destruct (IH Hall r') as [Hlen _];
            [intros H; now apply spatialRun_pending |];
            destruct (spatialRun events r') as [r'' later]
        end. exact Hlen.
    + cbn [spatialRun]. unfold spatialFrame.
      destruct (movedFar _ _ && Qle_bool _ 0 && negb (spatialLoadPending r)).
      * match goal with
        | |- context [spatialRun events ?r'] =>
            destruct (spatialRun_pending events r' Hall eq_refl) as [_ E];
            destruct (spatialRun events r') as [r'' later]
        end. intros _. exact E.
      * match goal with
        | |- context [spatialRun events ?r'] =>
            destruct (IH Hall r') as (_ & _ & Hlast);
            [intros H; now apply spatialRun_pending |];
            destruct (spatialRun events r') as [r'' later]
        end. exact Hlast.
Qed.

(** X23.  The cool-down holds off the next load: while less time has passed in the
    frames than the cool-down that is left, no load starts, whether or not
    the pending one has settled and however far the camera moves. *)
Theorem spatial_cooldown_holds (events : list SpatialEvent) r :
  Forall forwardFrame events ->
  elapsed events < spatialCooldown r ->
  snd (spatialRun events r) = []
  /\ spatialCooldown (fst (spatialRun events r))
     == spatialCooldown r - elapsed events.
Proof.
  revert r. induction events as [| e events IH]; intros r Hall Hlt.
  - cbn. split; [reflexivity | ring].
  - apply Forall_cons in Hall as [He Hall].
    assert (Hrest : 0 <= elapsed events).
    { clear -Hall. induction Hall as [| e' l He' _ IH']; [discriminate |].
      destruct e'; cbn in *; lra. }
    destruct e as [camPos delta |]; cbn [spatialRun elapsed] in *.
    + cbn in He. unfold spatialFrame.
      assert (E : Qle_bool (spatialCooldown r - delta) 0 = false).
      { destruct (Qle_bool _ _) eqn:E; [| reflexivity].
        apply Qle_bool_iff in E. lra. }
      rewrite E, andb_false_r. cbn [andb].
      match goal with
      | |- context [spatialRun events ?r'] =>
          destruct (IH r' Hall) as [Hnone Hcd]; [cbn; lra |];
          destruct (spatialRun events r') as [r'' later]
      end. cbn in *. split; [exact Hnone | rewrite Hcd; ring].
    + destruct (IH (loadSettled r) Hall) as [Hnone Hcd]; [cbn; lra |].
      split; [exact Hnone | rewrite Hcd; cbn; ring].
Qed.

End SceneMore.

Section SceneWitnesses.
Import MindStore MindSpace.
Local Open Scope Q_scope.


Lemma spatial_loads_single_flight_witness :
  let events := [Frame (Examples.at_ 100 0 50) (1 # 2);
                 Frame (Examples.at_ 200 0 50) 5] in
  snd (spatialRun events initialRefs) = [Examples.at_ 100 0 50]
  /\ (length (snd (spatialRun events initialRefs)) <= 1)%nat.
Proof.
  intros events. split; [reflexivity |].
  apply (spatial_loads_single_flight events initialRefs).
  repeat constructor.
Defined.

Lemma spatial_cooldown_holds_witness :
  let started := fst (spatialFrame true (Examples.at_ 100 0 50) (1 # 2) initialRefs) in
  let events := [Settled; Frame (Examples.at_ 200 0 50) (1 # 4);
                 Frame (Examples.at_ 300 0 50) (1 # 2)] in
  spatialCooldown started == 1
  /\ snd (spatialRun events started) = [].
Proof.
  intros started events. split; [reflexivity |].
  apply (spatial_cooldown_holds events started).
  - repeat constructor; discriminate.
  - reflexivity.
Defined.

End SceneWitnesses.

(** ** The card of a thought: seed and combined activation *)

Section CardFacts.
Import ThoughtCard.
Local Open Scope Z_scope.

Lemma toInt32_range (x : Z) : - 2 ^ 31 <= toInt32 x < 2 ^ 31.
Proof.
  unfold toInt32.
  pose proof (Z.mod_pos_bound (x + 2 ^ 31) (2 ^ 32) ltac:(lia)). lia.
Qed.

Lemma toInt32_small (x : Z) : - 2 ^ 31 <= x < 2 ^ 31 -> toInt32 x = x.
Proof.
  intros H. unfold toInt32. rewrite Z.mod_small by lia. lia.
Qed.

Lemma toInt32_wraps (x : Z) : exists q, toInt32 x = x + q * 2 ^ 32.
Proof.
  exists (- ((x + 2 ^ 31) / 2 ^ 32)). unfold toInt32.
  rewrite (Z.mod_eq (x + 2 ^ 31) (2 ^ 32)) by lia. lia.
Qed.

Lemma toInt32_shift (x q : Z) : toInt32 (x + q * 2 ^ 32) = toInt32 x.
Proof.
  unfold toInt32.
  replace (x + q * 2 ^ 32 + 2 ^ 31) with (x + 2 ^ 31 + q * 2 ^ 32) by lia.
  now rewrite Z_mod_plus_full.
Qed.

Lemma hashStep_31 (h c : Z) : hashStep h c = toInt32 (31 * h + c).
Proof.
  unfold hashStep. rewrite Z.shiftl_mul_pow2 by lia.
  destruct (toInt32_wraps h) as [q Hq].
  destruct (toInt32_wraps (toInt32 h * 2 ^ 5)) as [q' Hq'].
  rewrite Hq', Hq.
  replace ((h + q * 2 ^ 32) * 2 ^ 5 + q' * 2 ^ 32 - h + c)
    with (31 * h + c + (q * 2 ^ 5 + q') * 2 ^ 32) by lia.
  apply toInt32_shift.
Qed.

Lemma foldl_hashStep_range (codes : list Z) (h : Z) :
  - 2 ^ 31 <= h < 2 ^ 31 ->
  - 2 ^ 31 <= foldl hashStep h codes < 2 ^ 31.
Proof.
  revert h. induction codes as [| c codes IH]; intros h Hh; [exact Hh |].
  cbn [foldl]. apply IH. unfold hashStep. apply toInt32_range.
Qed.

(** X24.  The seed of a card (and of a connection's curve) is the 32-bit
    wrap-around hash [hash * 31 + code] of the characters of the id, reduced
    to a multiple of 1/1000 that is at least 0 and below 1; the empty id
    has seed 0. *)
Theorem seed_is_wrapped_hash (s : string) :
  (forall h c, hashStep h c = toInt32 (31 * h + c))
  /\ - 2 ^ 31 <= hashOf s < 2 ^ 31
  /\ (exists k, 0 <= k <= 999
                /\ seedOf s = (inject_Z k / 1000)%Q)
  /\ (0 <= seedOf s)%Q /\ (seedOf s < 1)%Q
  /\ seedOf "" = (inject_Z 0 / 1000)%Q.
Proof.
  assert (Hrange : - 2 ^ 31 <= hashOf s < 2 ^ 31).
  { unfold hashOf. apply foldl_hashStep_range. lia. }
  assert (Hk : 0 <= Z.abs (Z.rem (hashOf s) 1000) <= 999).
  { pose proof (Z.rem_bound_abs (hashOf s) 1000 ltac:(lia)). lia. }
  refine (conj hashStep_31 (conj Hrange (conj _ (conj _ (conj _ eq_refl))))).
  - exists (Z.abs (Z.rem (hashOf s) 1000)). split; [exact Hk | reflexivity].
  - unfold seedOf. apply Qle_shift_div_l; [reflexivity |].
    rewrite Qmult_0_l. change 0%Q with (inject_Z 0). rewrite <- Zle_Qle. lia.
  - unfold seedOf. apply Qlt_shift_div_r; [reflexivity |].
    rewrite Qmult_1_l. change 1000%Q with (inject_Z 1000).
    rewrite <- Zlt_Qlt. lia.
Qed.

(** X25.  The brightness of a card is never below the dormant level 0.15 and never
    above 1, in a store with levels in 0-1 and a positive decay duration;
    it is at least each of the two readings it combines. *)
Theorem combined_activation_range (now : Q) (id : string)
    (act : ActivationStore.ActivationState)
    (thinking : ThinkingStore.ThinkingState) :
  ActivationStore.levelsInUnit act ->
  (0 < ActivationStore.decayDuration act)%Q ->
  (15 # 100 <= combinedActivation now id act thinking)%Q
  /\ (combinedActivation now id act thinking <= 1)%Q
  /\ (ActivationStore.getActivation now id act
      <= combinedActivation now id act thinking)%Q
  /\ (ThinkingStore.getActivation id thinking
      <= combinedActivation now id act thinking)%Q.
Proof.
  intros Hunit HD. unfold combinedActivation, dormantLevel.
  destruct (getActivation_unit act now id Hunit HD) as [_ Hn1].
  destruct (thinking_reading_bounds thinking id) as (_ & Ht1 & _).
  set (n := ActivationStore.getActivation now id act) in *.
  set (t := ThinkingStore.getActivation id thinking) in *.
  pose proof (Q.le_max_l (15 # 100) (Qmax n t)).
  pose proof (Q.le_max_r (15 # 100) (Qmax n t)).
  pose proof (Q.le_max_l n t). pose proof (Q.le_max_r n t).
  assert (Qmax n t <= 1)%Q by (apply Q.max_lub; assumption).
  assert (Qmax (15 # 100) (Qmax n t) <= 1)%Q
    by (apply Q.max_lub; [discriminate | assumption]).
  repeat split; try assumption; lra.
Qed.

Lemma combined_activation_range_witness :
  (15 # 100
   <= combinedActivation 0 "t1" ActivationStore.initialState
        ThinkingStore.initialState)%Q.
Proof.
  apply (combined_activation_range 0 "t1" ActivationStore.initialState
           ThinkingStore.initialState initial_levelsInUnit eq_refl).
Defined.

End CardFacts.
